(** * A signaling relay: rooms, peer directory, admission and rate limiting

    Shallow embedding of [src/index.js].  The relay is an event-driven
    program over four process-wide maps ([appClients], [cloakRooms],
    [connectionsPerIP], [pendingMatches]) and the mutable [ws] objects of
    the transport.  Every JavaScript object that is shared by reference
    (a socket, a room) lives in a store and is named by a reference, so
    that a room's member set and a continuation suspended at an [await]
    see the same object as the global maps do.

    Each handler is a function from the state to the new state and the
    list of calls it made into the transport ([send], [close],
    [terminate], [ping]) and the timer.  What the environment decides is an
    argument: the clock ([Date.now()]), the random id of a connection, the
    salt of a hash.  [handleCloakLogic] is asynchronous: its [join] case is
    cut at its two [await]s, and a handler that reaches one returns the
    continuation it is suspended in, to be resumed by a later event, after
    whatever other events the event loop ran in between. *)

From Stdlib Require Import ZArith.
From stdpp Require Import base option list gmap strings fin_maps.

(** ** JavaScript values as the relay uses them *)

(** A field of a parsed message or of a socket: [None] is [undefined].
    Fields that are present are strings, as in the wire table. *)
Definition truthy (v : option string) : bool :=
  match v with
  | Some s => negb (String.eqb s "")
  | None => false
  end.

(** The string held by a field that was tested truthy. *)
Definition str (v : option string) : string := default "" v.

(** [a || b] on fields. *)
Definition or_else (v : option string) (d : string) : string :=
  if truthy v then str v else d.

(** Values of the per-address counter: a number or [NaN]
    ([undefined - 1] is [NaN]). *)
Inductive jsnum := JNum (n : Z) | JNaN.

(** [(v || 0) + 1] *)
Definition or0_succ (v : option jsnum) : Z :=
  match v with
  | Some (JNum n) => (n + 1)%Z
  | _ => 1%Z
  end.

(** [v - 1] *)
Definition js_pred (v : option jsnum) : jsnum :=
  match v with
  | Some (JNum n) => JNum (n - 1)
  | _ => JNaN
  end.

(** [v <= 0]; false on [NaN]. *)
Definition js_le0 (v : jsnum) : bool :=
  match v with
  | JNum n => (n <=? 0)%Z
  | JNaN => false
  end.

(** ** Data model *)

Inductive readyState := CONNECTING | OPEN | CLOSING | CLOSED.

Definition readyState_eqb (a b : readyState) : bool :=
  match a, b with
  | CONNECTING, CONNECTING | OPEN, OPEN | CLOSING, CLOSING | CLOSED, CLOSED => true
  | _, _ => false
  end.

(** A [ws] object once the connection handler has set it up; [ws_ip] is the
    [ip] captured by its handlers. *)
Record socket := Socket {
  ws_ip : string;
  ws_id : string;
  ws_isAlive : bool;
  ws_msgCount : Z;
  ws_msgTs : Z;
  ws_room : option string;
  ws_alias : option string;
  ws_peerId : option string;
  ws_readyState : readyState
}.

(** A room object; [clients] is a JavaScript [Set] of sockets, kept in
    insertion order and without repetition. *)
Record room := Room {
  clients : list nat;
  password : option string;
  createdAt : Z
}.

(** The parsed message [data]. [d_rest] stands for every other field, which
    the relay copies and never reads. *)
Record payload := Payload {
  d_appType : option string;
  d_type : option string;
  d_room : option string;
  d_password : option string;
  d_alias : option string;
  d_peerId : option string;
  d_targetPeerId : option string;
  d_rest : string
}.

(** An inbound frame: the length of [message.toString()] and the result of
    [JSON.parse] on it ([None] when it throws). *)
Record frame := Frame {
  f_length : Z;
  f_json : option payload
}.

(** Objects the relay serialises and sends. *)
Inductive msg :=
| MError (message : string)
| MJoined (room_ : string) (yourId : string) (peers : list (string * option string))
| MPeerJoined (peerId : string) (alias_ : string)
| MPeerLeft (peerId : string)
| MRegistered (peerId : string)
| MPeerFound (peerId : option string)
| MSignal (data : payload) (fromPeerId : string)
| MForward (data : payload) (fromPeerId : option string).

(** Calls into the transport and the timer, in program order. *)
Inductive action :=
| Send (ws : nat) (m : msg)
| Close (ws : nat) (code : Z)
| Terminate (ws : nat)
| Ping (ws : nat)
| SetTimeout (targetPeerId : string) (ws : nat) (ms : Z).

#[global] Instance payload_eq_dec : EqDecision payload.
Proof. solve_decision. Defined.
#[global] Instance msg_eq_dec : EqDecision msg.
Proof. solve_decision. Defined.
#[global] Instance action_eq_dec : EqDecision action.
Proof. solve_decision. Defined.

Record state := State {
  sockets : gmap nat socket;
  rooms : gmap nat room;
  wss_clients : list nat;
  cloakRooms : gmap string nat;
  appClients : gmap string (gmap string nat);
  connectionsPerIP : gmap string jsnum;
  pendingMatches : gmap string nat
}.

Definition initial : state := State ∅ ∅ [] ∅ ∅ ∅ ∅.

Definition MAX_MESSAGE_SIZE : Z := 64 * 1024.
Definition HEARTBEAT_INTERVAL : Z := 30000.

(** ** Field updates *)

Definition set_sockets (f : gmap nat socket → gmap nat socket) (st : state) : state :=
  State (f (sockets st)) (rooms st) (wss_clients st) (cloakRooms st)
        (appClients st) (connectionsPerIP st) (pendingMatches st).
Definition set_rooms (f : gmap nat room → gmap nat room) (st : state) : state :=
  State (sockets st) (f (rooms st)) (wss_clients st) (cloakRooms st)
        (appClients st) (connectionsPerIP st) (pendingMatches st).
Definition set_wss_clients (f : list nat → list nat) (st : state) : state :=
  State (sockets st) (rooms st) (f (wss_clients st)) (cloakRooms st)
        (appClients st) (connectionsPerIP st) (pendingMatches st).
Definition set_cloakRooms (f : gmap string nat → gmap string nat) (st : state) : state :=
  State (sockets st) (rooms st) (wss_clients st) (f (cloakRooms st))
        (appClients st) (connectionsPerIP st) (pendingMatches st).
Definition set_appClients
    (f : gmap string (gmap string nat) → gmap string (gmap string nat)) (st : state) : state :=
  State (sockets st) (rooms st) (wss_clients st) (cloakRooms st)
        (f (appClients st)) (connectionsPerIP st) (pendingMatches st).
Definition set_connectionsPerIP (f : gmap string jsnum → gmap string jsnum) (st : state) : state :=
  State (sockets st) (rooms st) (wss_clients st) (cloakRooms st)
        (appClients st) (f (connectionsPerIP st)) (pendingMatches st).
Definition set_pendingMatches (f : gmap string nat → gmap string nat) (st : state) : state :=
  State (sockets st) (rooms st) (wss_clients st) (cloakRooms st)
        (appClients st) (connectionsPerIP st) (f (pendingMatches st)).

Definition with_isAlive (b : bool) (s : socket) : socket :=
  Socket (ws_ip s) (ws_id s) b (ws_msgCount s) (ws_msgTs s)
         (ws_room s) (ws_alias s) (ws_peerId s) (ws_readyState s).
Definition with_msgCount (n : Z) (s : socket) : socket :=
  Socket (ws_ip s) (ws_id s) (ws_isAlive s) n (ws_msgTs s)
         (ws_room s) (ws_alias s) (ws_peerId s) (ws_readyState s).
Definition with_msgTs (t : Z) (s : socket) : socket :=
  Socket (ws_ip s) (ws_id s) (ws_isAlive s) (ws_msgCount s) t
         (ws_room s) (ws_alias s) (ws_peerId s) (ws_readyState s).
Definition with_room (r : option string) (s : socket) : socket :=
  Socket (ws_ip s) (ws_id s) (ws_isAlive s) (ws_msgCount s) (ws_msgTs s)
         r (ws_alias s) (ws_peerId s) (ws_readyState s).
Definition with_alias (a : option string) (s : socket) : socket :=
  Socket (ws_ip s) (ws_id s) (ws_isAlive s) (ws_msgCount s) (ws_msgTs s)
         (ws_room s) a (ws_peerId s) (ws_readyState s).
Definition with_peerId (p : option string) (s : socket) : socket :=
  Socket (ws_ip s) (ws_id s) (ws_isAlive s) (ws_msgCount s) (ws_msgTs s)
         (ws_room s) (ws_alias s) p (ws_readyState s).
Definition with_readyState (r : readyState) (s : socket) : socket :=
  Socket (ws_ip s) (ws_id s) (ws_isAlive s) (ws_msgCount s) (ws_msgTs s)
         (ws_room s) (ws_alias s) (ws_peerId s) r.

Definition with_clients (l : list nat) (r : room) : room :=
  Room l (password r) (createdAt r).

(** Mutation of the socket object [ws]. *)
Definition upd_socket (ws : nat) (f : socket → socket) (st : state) : state :=
  set_sockets (alter f ws) st.

(** ** JavaScript [Set] of sockets *)

Definition set_add (x : nat) (l : list nat) : list nat :=
  if bool_decide (x ∈ l) then l else l ++ [x].

Definition set_delete (x : nat) (l : list nat) : list nat :=
  filter (λ y, y ≠ x) l.

(** ** Transport calls that change a socket *)

(** [ws.close(code)] and [ws.terminate()] leave a closed socket closed and
    put any other in the closing state; the [close] event comes later. *)
Definition closing (s : socket) : socket :=
  match ws_readyState s with
  | CLOSED => s
  | _ => with_readyState CLOSING s
  end.

Definition is_open (s : socket) : bool := readyState_eqb (ws_readyState s) OPEN.

Definition is_str (v : option string) (s : string) : bool := bool_decide (v = Some s).

Definition messenger : string := "cudi-messenger".

(** ** Rooms *)

(** [broadcastToRoom(roomId, messageObj, sender, targetId = null)];
    [sender = None] is the call without a sender. *)
Definition broadcastToRoom (roomId : string) (messageObj : msg)
    (sender : option nat) (targetId : option string) (st : state) : list action :=
  match cloakRooms st !! roomId ≫= (λ r, rooms st !! r) with
  | None => []
  | Some rm =>
      flat_map (λ client,
        match sockets st !! client with
        | None => []
        | Some c =>
            if bool_decide (Some client ≠ sender) && is_open c then
              if truthy targetId && negb (bool_decide (Some (ws_id c) = targetId))
              then []
              else [Send client messageObj]
            else []
        end) (clients rm)
  end.

(** A handler of [handleCloakLogic] that reached an [await]. *)
Inductive suspended :=
| AwaitHash (ws : nat) (data : payload)
| AwaitCompare (ws : nat) (data : payload) (roomRef : nat) (digest : string).

(** [{ id: c.id, alias: c.alias }] *)
Definition peer_entry (st : state) (c : nat) : option (string * option string) :=
  (λ s, (ws_id s, ws_alias s)) <$> sockets st !! c.

(** [Array.from(room.clients).filter(c => c !== ws).map(...)] *)
Definition peersInRoom (ws : nat) (roomRef : nat) (st : state) : list (string * option string) :=
  match rooms st !! roomRef with
  | None => []
  | Some rm => omap (peer_entry st) (filter (λ c, c ≠ ws) (clients rm))
  end.

(** The tail of the [join] case, from [ws.room = data.room] on; [roomRef] is
    the object the local [room] points to. *)
Definition join_admit (ws : nat) (data : payload) (roomRef : nat) (st : state)
    : state * list action :=
  match sockets st !! ws with
  | None => (st, [])
  | Some s =>
      let alias := or_else (d_alias data) "Cloaker" in
      let st1 := upd_socket ws (λ s, with_alias (Some alias) (with_room (d_room data) s)) st in
      let st2 := set_rooms (alter (λ r, with_clients (set_add ws (clients r)) r) roomRef) st1 in
      (st2,
       Send ws (MJoined (str (d_room data)) (ws_id s) (peersInRoom ws roomRef st2))
       :: broadcastToRoom (str (d_room data)) (MPeerJoined (ws_id s) alias) (Some ws) None st2)
  end.

(** The password gate, from [const room = cloakRooms.get(data.room)] on. *)
Definition join_check (ws : nat) (data : payload) (roomRef : nat) (st : state)
    : state * list action * option suspended :=
  match rooms st !! roomRef with
  | None => (st, [], None)
  | Some rm =>
      if truthy (password rm) then
        if negb (truthy (d_password data))
        then (st, [Send ws (MError "Password required")], None)
        else (st, [], Some (AwaitCompare ws data roomRef (str (password rm))))
      else (join_admit ws data roomRef st, None)
  end.

(** [cloakRooms.set(data.room, { clients: new Set(), password, createdAt })]
    and what follows it. *)
Definition join_create (ws : nat) (data : payload) (passwordHash : option string)
    (now : Z) (st : state) : state * list action * option suspended :=
  let roomRef := fresh (dom (rooms st)) in
  let st1 := set_rooms (<[roomRef := Room [] passwordHash now]>) st in
  let st2 := set_cloakRooms (<[str (d_room data) := roomRef]>) st1 in
  join_check ws data roomRef st2.

(** [case 'join'] up to its first [await]. *)
Definition join (ws : nat) (data : payload) (now : Z) (st : state)
    : state * list action * option suspended :=
  if negb (truthy (d_room data)) then (st, [], None)
  else
    match cloakRooms st !! str (d_room data) with
    | None =>
        if truthy (d_password data) then (st, [], Some (AwaitHash ws data))
        else join_create ws data None now st
    | Some roomRef => join_check ws data roomRef st
    end.

Definition handleCloakLogic (ws : nat) (data : payload) (now : Z) (st : state)
    : state * list action * option suspended :=
  if is_str (d_type data) "join" then join ws data now st
  else if is_str (d_type data) "signal" then
    match sockets st !! ws with
    | None => (st, [], None)
    | Some s =>
        if negb (truthy (ws_room s)) then (st, [], None)
        else (st, broadcastToRoom (str (ws_room s)) (MSignal data (ws_id s))
                    (Some ws) (d_targetPeerId data) st, None)
    end
  else (st, [], None).

(** ** Peer directory *)

Definition directory (st : state) : gmap string nat :=
  default ∅ (appClients st !! messenger).

Definition handleMessengerLogic (ws : nat) (data : payload) (messageString : frame)
    (st : state) : state * list action :=
  let st0 :=
    if bool_decide (is_Some (appClients st !! messenger)) then st
    else set_appClients (<[messenger := ∅]>) st in
  if is_str (d_type data) "register" then
    if truthy (d_peerId data) then
      let pid := str (d_peerId data) in
      let st1 := set_appClients (alter (<[pid := ws]>) messenger) st0 in
      let st2 := upd_socket ws (with_peerId (d_peerId data)) st1 in
      match pendingMatches st2 !! pid with
      | Some requesterWs =>
          (set_pendingMatches (delete pid) st2,
           Send ws (MRegistered pid) ::
           match sockets st2 !! requesterWs with
           | Some r =>
               if is_open r
               then [Send requesterWs (MPeerFound (Some pid));
                     Send ws (MPeerFound (ws_peerId r))]
               else []
           | None => []
           end)
      | None => (st2, [Send ws (MRegistered pid)])
      end
    else (st0, [])
  else if is_str (d_type data) "find_peer" then
    if truthy (d_targetPeerId data) then
      let target := str (d_targetPeerId data) in
      if bool_decide (is_Some (directory st0 !! target))
      then (st0, [Send ws (MPeerFound (Some target))])
      else (set_pendingMatches (<[target := ws]>) st0, [SetTimeout target ws 300000])
    else (st0, [])
  else if is_str (d_type data) "offer" || is_str (d_type data) "answer"
          || is_str (d_type data) "candidate" then
    if truthy (d_targetPeerId data) then
      match directory st0 !! str (d_targetPeerId data) with
      | Some targetWs =>
          (st0,
           match sockets st0 !! targetWs, f_json messageString, sockets st0 !! ws with
           | Some t, Some forwardData, Some s =>
               if is_open t then [Send targetWs (MForward forwardData (ws_peerId s))] else []
           | _, _, _ => []
           end)
      | None => (st0, [])
      end
    else (st0, [])
  else (st0, []).

(** The callback of the [setTimeout] armed by [find_peer]. *)
Definition on_timeout (targetPeerId : string) (ws : nat) (st : state) : state :=
  if bool_decide (pendingMatches st !! targetPeerId = Some ws)
  then set_pendingMatches (delete targetPeerId) st
  else st.

(** ** Teardown *)

(** The first [if] of [limpiarRecursos]: leave the room named by [ws.room]. *)
Definition leave_room (ws : nat) (s : socket) (st : state) : state * list action :=
  if truthy (ws_room s) then
    match cloakRooms st !! str (ws_room s) with
    | Some roomRef =>
        let st' :=
          set_rooms (alter (λ r, with_clients (set_delete ws (clients r)) r) roomRef) st in
        let acts := broadcastToRoom (str (ws_room s)) (MPeerLeft (ws_id s)) None None st' in
        let size0 :=
          match rooms st' !! roomRef with
          | Some r => bool_decide (length (clients r) = 0)
          | None => false
          end in
        (if size0 then set_cloakRooms (delete (str (ws_room s))) st' else st', acts)
    | None => (st, [])
    end
  else (st, []).

(** The second [if]: drop the directory entry under [ws.peerId] and the
    pending matches whose requester is [ws]. *)
Definition forget_peer (ws : nat) (s : socket) (st : state) : state :=
  if truthy (ws_peerId s) && bool_decide (is_Some (appClients st !! messenger)) then
    set_pendingMatches (filter (λ kv, kv.2 ≠ ws))
      (set_appClients (alter (delete (str (ws_peerId s))) messenger) st)
  else st.

Definition limpiarRecursos (ws : nat) (st : state) : state * list action :=
  match sockets st !! ws with
  | None => (st, [])
  | Some s =>
      let '(st1, acts) := leave_room ws s st in
      (forget_peer ws s st1, acts)
  end.

(** ** Admission, rate limiting, liveness *)

(** The socket as the connection handler leaves it. *)
Definition new_socket (ip id : string) (now : Z) : socket :=
  Socket ip id true 0 now None None None OPEN.

(** [wss.on('connection', (ws, req) => ...)].  A rejected socket is in
    [wss.clients] but gets no field and no handler: it is absent from
    [sockets]. *)
Definition on_connection (ws : nat) (ip id : string) (now : Z) (st : state)
    : state * list action :=
  let st0 := set_wss_clients (set_add ws) st in
  let currentIPCount := or0_succ (connectionsPerIP st0 !! ip) in
  if (20 <? currentIPCount)%Z then (st0, [Terminate ws])
  else
    (set_sockets (<[ws := new_socket ip id now]>)
       (set_connectionsPerIP (<[ip := JNum currentIPCount]>) st0), []).

(** [function heartbeat() { this.isAlive = true; }] *)
Definition heartbeat (ws : nat) (st : state) : state :=
  upd_socket ws (with_isAlive true) st.

(** The window test and the increment at the head of the message handler. *)
Definition rate_limit (now : Z) (s : socket) : socket :=
  let s1 :=
    if (1000 <? now - ws_msgTs s)%Z then with_msgCount 0 (with_msgTs now s) else s in
  with_msgCount (ws_msgCount s1 + 1) s1.

(** One callback of the [setInterval] sweep. *)
Definition sweep_one (acc : state * list action) (ws : nat) : state * list action :=
  let '(st, acts) := acc in
  match sockets st !! ws with
  | None => (st, acts ++ [Terminate ws])
  | Some s =>
      if negb (ws_isAlive s) then (upd_socket ws closing st, acts ++ [Terminate ws])
      else (upd_socket ws (with_isAlive false) st, acts ++ [Ping ws])
  end.

Definition on_interval (st : state) : state * list action :=
  foldl sweep_one (st, []) (wss_clients st).

(** ** Reading the state *)

(** The member set of the room that [roomId] names, if any. *)
Definition room_members (st : state) (roomId : string) : option (list nat) :=
  clients <$> (cloakRooms st !! roomId ≫= (λ r, rooms st !! r)).

(** ** The event loop *)

(** What the event loop dispatches: a new connection, a frame, the
    settling of the promise a suspended [join] awaits, the [close] and
    [pong] events of a socket, a tick of the liveness interval, the expiry
    timer of a pending match. *)
Inductive event :=
| EConnection (ws : nat) (ip id : string) (now : Z)
| EMessage (ws : nat) (now : Z) (message : frame)
| EResume (k : suspended) (salt : string) (now : Z)
| EClose (ws : nat)
| EPong (ws : nat)
| EInterval
| ETimeout (targetPeerId : string) (ws : nat).

(** What a handler leaves behind: the state, the transport calls it made,
    and the continuation it is suspended in, if any. *)
Definition state_of (r : state * list action * option suspended) : state := r.1.1.
Definition actions_of (r : state * list action * option suspended) : list action := r.1.2.
Definition pending_of (r : state * list action * option suspended) : option suspended := r.2.

(** ** The hashing capability

    [bcrypt.hash(password, 8)] draws a salt and returns a digest;
    [bcrypt.compare(password, digest)] checks a password against one. *)
Class Bcrypt := {
  bcrypt_hash : string → string → string;
  bcrypt_compare : string → string → bool
}.

Section Relay.

Context {crypto : Bcrypt}.

(** A suspended [join] continues once its promise settles; [salt] is the
    salt drawn by [bcrypt.hash], [now] the clock at that moment. *)
Definition resume (k : suspended) (salt : string) (now : Z) (st : state)
    : state * list action * option suspended :=
  match k with
  | AwaitHash ws data =>
      join_create ws data (Some (bcrypt_hash salt (str (d_password data)))) now st
  | AwaitCompare ws data roomRef digest =>
      if negb (bcrypt_compare (str (d_password data)) digest)
      then (st, [Send ws (MError "Wrong password")], None)
      else (join_admit ws data roomRef st, None)
  end.

(** [ws.on('message', async message => ...)] up to the first [await]. *)
Definition on_message (ws : nat) (now : Z) (message : frame) (st : state)
    : state * list action * option suspended :=
  match sockets st !! ws with
  | None => (st, [], None)
  | Some s =>
      let s' := rate_limit now s in
      let st1 := set_sockets (<[ws := s']>) st in
      if (50 <? ws_msgCount s')%Z then (upd_socket ws closing st1, [Close ws 1011], None)
      else if (MAX_MESSAGE_SIZE <? f_length message)%Z
      then (upd_socket ws closing st1, [Close ws 1009], None)
      else
        match f_json message with
        | None => (st1, [], None)
        | Some data =>
            if is_str (d_appType data) "cloaks" || is_str (d_appType data) "cudi-sync"
            then handleCloakLogic ws data now st1
            else if is_str (d_appType data) "cudi-messenger"
            then (handleMessengerLogic ws data message st1, None)
            else (st1, [], None)
        end
  end.

(** [ws.on('close', ...)]: the transport has marked the socket closed and
    dropped it from [wss.clients]. *)
Definition on_close (ws : nat) (st : state) : state * list action :=
  let st0 := set_wss_clients (set_delete ws) st in
  match sockets st0 !! ws with
  | None => (st0, [])
  | Some s =>
      let st1 := upd_socket ws (with_readyState CLOSED) st0 in
      let count := js_pred (connectionsPerIP st1 !! ws_ip s) in
      let st2 :=
        if js_le0 count then set_connectionsPerIP (delete (ws_ip s)) st1
        else set_connectionsPerIP (<[ws_ip s := count]>) st1 in
      limpiarRecursos ws st2
  end.

Definition step (e : event) (st : state) : state * list action * option suspended :=
  match e with
  | EConnection ws ip id now => (on_connection ws ip id now st, None)
  | EMessage ws now message => on_message ws now message st
  | EResume k salt now => resume k salt now st
  | EClose ws => (on_close ws st, None)
  | EPong ws => (heartbeat ws st, [], None)
  | EInterval => (on_interval st, None)
  | ETimeout targetPeerId ws => (on_timeout targetPeerId ws st, [], None)
  end.

(** The state after a sequence of events, and everything it made the
    relay do. *)
Fixpoint run (es : list event) (st : state) : state * list action :=
  match es with
  | [] => (st, [])
  | e :: es' =>
      let r := step e st in
      let '(st', acts) := run es' (state_of r) in
      (st', actions_of r ++ acts)
  end.

(** Let the promise a handler waits for settle at once, with no other
    event in between. *)
Definition settle (salt : string) (now : Z)
    (r : state * list action * option suspended)
    : state * list action * option suspended :=
  match pending_of r with
  | None => r
  | Some k =>
      let r' := resume k salt now (state_of r) in
      (state_of r', actions_of r ++ actions_of r', pending_of r')
  end.

(** A message handled to completion: a [join] awaits at most twice. *)
Definition on_message_settled (salt : string) (ws : nat) (now : Z) (message : frame)
    (st : state) : state * list action * option suspended :=
  settle salt now (settle salt now (on_message ws now message st)).

End Relay.

(** * Vocabulary of the properties *)

(** ** Sockets across handlers *)

(** [keeps R r st st']: the socket [r] of [st] is still there in [st'],
    related by [R] to what it was. *)
Definition keeps (R : relation socket) (r : nat) (st st' : state) : Prop :=
  ∀ s, sockets st !! r = Some s → ∃ s', sockets st' !! r = Some s' ∧ R s s'.

(** [same proj]: [proj] reads the same value. *)
Definition same {A} (proj : socket → A) : relation socket :=
  λ s s', proj s' = proj s.

(** [R] does not see the writes of a join ([ws.room], [ws.alias]). *)
Definition room_blind (R : relation socket) : Prop :=
  ∀ a x s, R s (with_alias a (with_room x s)).

(** [R] does not see the write of a register ([ws.peerId]). *)
Definition peer_blind (R : relation socket) : Prop :=
  ∀ p s, R s (with_peerId p s).

(** [R] does not see the rate limiter ([ws.msgTs], [ws.msgCount]). *)
Definition window_blind (R : relation socket) : Prop :=
  ∀ now s, R s (rate_limit now s).

(** [R] does not see liveness and closing ([ws.isAlive], [close],
    [terminate], the [close] event). *)
Definition life_blind (R : relation socket) : Prop :=
  (∀ s, R s (closing s)) ∧ (∀ b s, R s (with_isAlive b s))
  ∧ (∀ s, R s (with_readyState CLOSED s)).

(** The message is a [register] with a usable peer id. *)
Definition registers (data : payload) : bool :=
  is_str (d_type data) "register" && truthy (d_peerId data).

(** Who may change socket [r] beyond [R]: a new connection object taking
    its place, or a message of its own. *)
Definition foreign_to (r : nat) (e : event) : Prop :=
  match e with
  | EConnection ws _ _ _ => ws ≠ r
  | EMessage ws _ _ => ws ≠ r
  | _ => True
  end.

(** ** Rate limiting *)

Definition is_close (a : action) : bool :=
  match a with Close _ _ => true | _ => false end.

(** No [ws.close] among the calls. *)
Definition no_close (acts : list action) : Prop := Forall (λ a, is_close a = false) acts.

(** The rate limiter's verdict on the next message of a socket. *)
Definition over_limit (now : Z) (s : socket) : bool :=
  (50 <? ws_msgCount (rate_limit now s))%Z.

(** The rate-limit window of a socket: its start and its count. *)
Definition window (s : socket) : Z * Z := (ws_msgTs s, ws_msgCount s).

(** The event is a message of socket [ws]. *)
Definition from_ws (ws : nat) (e : event) : bool :=
  match e with
  | EMessage w _ _ => bool_decide (w = ws)
  | _ => false
  end.

(** Every message of [ws] in the trace arrives no later than 1000 ms
    after [start], and no new connection object replaces [ws]. *)
Definition in_window (ws : nat) (start : Z) (e : event) : Prop :=
  match e with
  | EMessage w now _ => w = ws → (now - start ≤ 1000)%Z
  | EConnection w _ _ _ => w ≠ ws
  | _ => True
  end.

(** ** Directory and notifications *)

(** The state in which [handleMessengerLogic] runs its [switch]: the
    namespace map exists. *)
Definition with_namespace (st : state) : state :=
  if bool_decide (is_Some (appClients st !! messenger)) then st
  else set_appClients (<[messenger := ∅]>) st.


(** Every send of [acts] goes to the actor [a] or to a socket that is
    open in [st]. *)
Definition sends_to_open (a : option nat) (st : state) (acts : list action) : Prop :=
  ∀ t m, Send t m ∈ acts →
    Some t = a ∨ ∃ c, sockets st !! t = Some c ∧ is_open c = true.

(** A socket that is not open stays so. *)
Definition stays_shut : relation socket :=
  λ s s', is_open s = false → is_open s' = false.

(** The event does not originate from socket [ws]: it is not a
    connection or a message of [ws], nor the continuation of a handler
    that [ws] started. *)
Definition silent_for (ws : nat) (e : event) : Prop :=
  match e with
  | EConnection w _ _ _ => w ≠ ws
  | EMessage w _ _ => w ≠ ws
  | EResume (AwaitHash w _) _ _ => w ≠ ws
  | EResume (AwaitCompare w _ _ _) _ _ => w ≠ ws
  | _ => True
  end.

(** ** Rooms *)

(** The joins [js] (socket, message, clock) handled one after the other. *)
Fixpoint joins (js : list (nat * payload * Z)) (st : state)
    : list (state * list action * option suspended) :=
  match js with
  | [] => []
  | (ws, data, now) :: js' =>
      let res := handleCloakLogic ws data now st in
      res :: joins js' (state_of res)
  end.

(** [res] is a completed join of [ws] to room [R] whose [joined] reply
    carries the id of [ws] and lists exactly the sockets of [earlier]
    other than [ws], each once, each as the pair of its id and its
    alias. *)
Definition joined_reply (R : string) (ws : nat) (earlier : list nat)
    (res : state * list action * option suspended) : Prop :=
  pending_of res = None
  ∧ ∃ L s peers bcast,
      sockets (state_of res) !! ws = Some s
      ∧ actions_of res = Send ws (MJoined R (ws_id s) peers) :: bcast
      ∧ Forall2 (λ c p, ∃ sc, sockets (state_of res) !! c = Some sc
                              ∧ p = (ws_id sc, ws_alias sc)) L peers
      ∧ NoDup L
      ∧ ∀ c, c ∈ L ↔ c ∈ earlier ∧ c ≠ ws.

(** [j] is a join message for room [R] from a socket of [st]. *)
Definition join_of (R : string) (st : state) (j : nat * payload * Z) : Prop :=
  d_type j.1.2 = Some "join" ∧ d_room j.1.2 = Some R ∧ is_Some (sockets st !! j.1.1).

(** The room object [ref] of [st] is still there in [st'], with the
    password it had. *)
Definition room_kept (ref : nat) (st st' : state) : Prop :=
  ∀ rm, rooms st !! ref = Some rm →
    ∃ rm', rooms st' !! ref = Some rm' ∧ password rm' = password rm.

(** ** Relaying in a room *)

(** [c] names a socket that is open. *)
Definition is_open_at (st : state) (c : nat) : bool :=
  match sockets st !! c with
  | Some s => is_open s
  | None => false
  end.

(** The members of [rm] that a broadcast reaches: open, other than the
    sender and, when a target id is given, carrying that id. *)
Definition recipients (st : state) (rm : room) (sender : option nat)
    (targetId : option string) : list nat :=
  filter (λ c, Some c ≠ sender ∧ is_open_at st c = true
               ∧ (truthy targetId = true → ws_id <$> sockets st !! c = targetId))
         (clients rm).

(** ** The directory *)

(** The message is one of the three signaling kinds that the directory
    forwards. *)
Definition forwarded_kind (data : payload) : Prop :=
  d_type data = Some "offer" ∨ d_type data = Some "answer"
  ∨ d_type data = Some "candidate".

(** ** Liveness *)

(** The process-wide maps are the same in both states. *)
Definition same_shared (st st' : state) : Prop :=
  rooms st' = rooms st ∧ cloakRooms st' = cloakRooms st
  ∧ appClients st' = appClients st ∧ pendingMatches st' = pendingMatches st
  ∧ connectionsPerIP st' = connectionsPerIP st.

(** What one liveness sweep does for the socket [w], read in the state
    before the sweep. *)
Definition probe (st : state) (w : nat) : action :=
  match sockets st !! w with
  | Some s => if ws_isAlive s then Ping w else Terminate w
  | None => Terminate w
  end.

(** ** Per-address accounting *)

(** What the per-address accounting sees of a socket: its address, and
    whether its [close] event has fired. *)
Definition standing (s : socket) : string * bool :=
  (ws_ip s, readyState_eqb (ws_readyState s) CLOSED).

(** The number of admitted sockets of address [ip] that have not closed. *)
Definition live_count (ip : string) (st : state) : nat :=
  size (filter (λ kv, kv.2 = (ip, false)) (standing <$> sockets st)).

(** The counter entry that stands for [n] open connections: no key for
    none. *)
Definition tally (n : nat) : option jsnum :=
  match n with
  | 0 => None
  | S _ => Some (JNum (Z.of_nat n))
  end.

(** The transport fires [connection] once per socket object and [close]
    at most once per socket. *)
Definition fires_once (e : event) (st : state) : Prop :=
  match e with
  | EConnection ws _ _ _ => sockets st !! ws = None
  | EClose ws => ∀ s, sockets st !! ws = Some s → ws_readyState s ≠ CLOSED
  | _ => True
  end.

Fixpoint well_formed {crypto : Bcrypt} (es : list event) (st : state) : Prop :=
  match es with
  | [] => True
  | e :: es' => fires_once e st ∧ well_formed es' (state_of (step e st))
  end.

(** The handler changes neither the standing of any socket nor the
    per-address counters. *)
Definition quiet (st st' : state) : Prop :=
  standing <$> sockets st' = standing <$> sockets st
  ∧ connectionsPerIP st' = connectionsPerIP st.

(** The per-address counters agree with the sockets, and no address
    exceeds the ceiling. *)
Definition accounted (st : state) : Prop :=
  ∀ ip, connectionsPerIP st !! ip = tally (live_count ip st) ∧ live_count ip st ≤ 20.

(** ** A connection over time *)

(** [s'] is a later state of the connection [s]: the same id and
    address, and not open again once it stopped being open. *)
Definition later_of : relation socket :=
  λ s s', ws_id s' = ws_id s ∧ ws_ip s' = ws_ip s
          ∧ (is_open s = false → is_open s' = false).

(** The event is not a new connection object at reference [ws]. *)
Definition not_connection (ws : nat) (e : event) : Prop :=
  match e with
  | EConnection w _ _ _ => w ≠ ws
  | _ => True
  end.

(** ** The two applications *)

(** The event belongs to the room relay: a frame that is not for the
    directory, or the settling of a promise a [join] awaits. *)
Definition room_traffic (e : event) : Prop :=
  match e with
  | EMessage _ _ f => ∀ data, f_json f = Some data → d_appType data ≠ Some messenger
  | EResume _ _ _ => True
  | _ => False
  end.

(** The event belongs to the directory: a frame that is not for the room
    relay, or the expiry of a pending match. *)
Definition directory_traffic (e : event) : Prop :=
  match e with
  | EMessage _ _ f =>
      ∀ data, f_json f = Some data →
        d_appType data ≠ Some "cloaks" ∧ d_appType data ≠ Some "cudi-sync"
  | ETimeout _ _ => True
  | _ => False
  end.

(** The directory and the pending matches are the same in both states. *)
Definition same_directory (st st' : state) : Prop :=
  appClients st' = appClients st ∧ pendingMatches st' = pendingMatches st.

(** The room table and the room objects are the same in both states. *)
Definition same_rooms (st st' : state) : Prop :=
  cloakRooms st' = cloakRooms st ∧ rooms st' = rooms st.

(** * Traces to run *)

(** Messages as clients send them. *)
Definition msg_join (roomId : string) (pw aliasName : option string) : payload :=
  Payload (Some "cloaks") (Some "join") (Some roomId) pw aliasName None None "".
Definition msg_register (pid : string) : payload :=
  Payload (Some "cudi-messenger") (Some "register") None None None (Some pid) None "".
Definition msg_find_peer (target : string) : payload :=
  Payload (Some "cudi-messenger") (Some "find_peer") None None None None (Some target) "".

(** A frame of 64 characters that parses to [data]. *)
Definition text (data : payload) : frame := Frame 64 (Some data).

(** A digest is the password between two dollar signs, followed by the
    salt; a password matches the digests that start with it. *)
Definition ref_hash (salt p : string) : string := ("$" +:+ p +:+ "$") +:+ salt.
Definition ref_compare (p digest : string) : bool :=
  String.prefix ("$" +:+ p +:+ "$") digest.

Definition ref_bcrypt : Bcrypt :=
  {| bcrypt_hash := ref_hash; bcrypt_compare := ref_compare |}.

(** Twenty connections from one address. *)
Definition twenty_open : state :=
  (run (crypto := ref_bcrypt)
     ((λ i, EConnection i "10.0.0.1" "a1b2c3d4" 0) <$> seq 1 20) initial).1.

(** A frame that parses to a message for no known application. *)
Definition noise : frame := Frame 2 (Some (Payload None None None None None None None "")).

(** The password-gated lobby: three connections are open and connection 1
    has created "lobby" with password "hunter2" (the hash has settled, its
    own password check is still pending). *)
Definition lobby_created : state :=
  (run (crypto := ref_bcrypt)
     [EConnection 1 "10.0.0.1" "a1b2c3d4" 0;
      EConnection 2 "10.0.0.2" "e5f6a7b8" 0;
      EConnection 3 "10.0.0.3" "0badcafe" 0;
      EMessage 1 10 (text (msg_join "lobby" (Some "hunter2") None));
      EResume (AwaitHash 1 (msg_join "lobby" (Some "hunter2") None)) "NaCl" 11]
     initial).1.

(** What happens next: connection 1 is admitted, connection 3 joins with
    the password and then disconnects. *)
Definition lobby_traffic : list event :=
  [EResume (AwaitCompare 1 (msg_join "lobby" (Some "hunter2") None) 0
              (ref_hash "NaCl" "hunter2")) "" 12;
   EMessage 3 20 (text (msg_join "lobby" (Some "hunter2") (Some "carol")));
   EResume (AwaitCompare 3 (msg_join "lobby" (Some "hunter2") (Some "carol")) 0
              (ref_hash "NaCl" "hunter2")) "" 21;
   EClose 3].

(** Three connections, admitted and idle. *)
Definition three_open : state :=
  (run (crypto := ref_bcrypt)
     [EConnection 1 "10.0.0.1" "a1b2c3d4" 0;
      EConnection 2 "10.0.0.2" "e5f6a7b8" 0;
      EConnection 3 "10.0.0.3" "0badcafe" 0] initial).1.

Definition three_joins : list (nat * payload * Z) :=
  [(1, msg_join "lobby" None (Some "alice"), 10%Z);
   (2, msg_join "lobby" None None, 20%Z);
   (3, msg_join "lobby" None (Some "carol"), 30%Z)].

(** Messages of the relay and of the directory. *)
Definition msg_signal (target : option string) : payload :=
  Payload (Some "cloaks") (Some "signal") None None None None target "sdp".
Definition msg_offer (target : string) : payload :=
  Payload (Some "cudi-messenger") (Some "offer") None None None None (Some target) "sdp".

(** The open room "lobby" as it fills up: connection 1 creates it,
    connection 2 and then connection 3 join. *)
Definition lobby_of_one : state :=
  (run (crypto := ref_bcrypt)
     [EMessage 1 10 (text (msg_join "lobby" None (Some "alice")))] three_open).1.
Definition lobby_of_two : state :=
  (run (crypto := ref_bcrypt)
     [EMessage 2 20 (text (msg_join "lobby" None None))] lobby_of_one).1.
Definition lobby_of_three : state :=
  (run (crypto := ref_bcrypt)
     [EMessage 3 30 (text (msg_join "lobby" None (Some "carol")))] lobby_of_two).1.

(** The sockets of these states. *)
Definition idle (ip id : string) : socket := Socket ip id true 0 0 None None None OPEN.
Definition member (ip id aliasName : string) : socket :=
  Socket ip id true 1 0 (Some "lobby") (Some aliasName) None OPEN.

(** Connection 2 is registered as "bob". *)
Definition bob_registered : state :=
  (handleMessengerLogic 2 (msg_register "bob") (text (msg_register "bob")) three_open).1.

(** Connection 1 asks for "X" and, in the second state, has closed
    without ever registering. *)
Definition asked_for_X : state :=
  (run (crypto := ref_bcrypt) [EMessage 1 10 (text (msg_find_peer "X"))] three_open).1.
Definition asker_gone : state :=
  (run (crypto := ref_bcrypt) [EClose 1] asked_for_X).1.

(** Connections come and go. *)
Definition churn : list event :=
  [EConnection 1 "10.0.0.1" "a1b2c3d4" 0;
   EConnection 2 "10.0.0.1" "e5f6a7b8" 0;
   EConnection 3 "10.0.0.2" "0badcafe" 0;
   EMessage 1 5 (text (msg_join "lobby" None None));
   EClose 1;
   EInterval;
   EClose 3].

(** The life of connection 1 after its admission. *)
Definition life_of_one : list event :=
  [EMessage 1 10 (text (msg_register "alice"));
   EMessage 2 20 (text (msg_find_peer "alice"));
   EInterval;
   EPong 1;
   EMessage 1 30 (text (msg_join "lobby" None None));
   EClose 1;
   EInterval;
   EMessage 2 40 (text (msg_join "lobby" None None))].

(** Room traffic while a match is pending: a protected room is created
    and its creator signals. *)
Definition room_chatter : list event :=
  [EMessage 2 20 (text (msg_join "lobby" (Some "hunter2") None));
   EResume (AwaitHash 2 (msg_join "lobby" (Some "hunter2") None)) "NaCl" 21;
   EResume (AwaitCompare 2 (msg_join "lobby" (Some "hunter2") None) 0
              (ref_hash "NaCl" "hunter2")) "" 22;
   EMessage 2 30 (text (msg_signal None));
   EMessage 3 40 noise].

(** * Properties *)

Section Properties.

Context {crypto : Bcrypt}.

(** ** Basic facts about fields and sets *)

Lemma set_add_elem (x y : nat) (l : list nat) : y ∈ set_add x l ↔ y = x ∨ y ∈ l.
Proof.
  unfold set_add. case_bool_decide.
  - split; [auto|]. intros [->|]; done.
  - rewrite elem_of_app, list_elem_of_singleton. tauto.
Qed.

Lemma set_add_member (x : nat) (l : list nat) : x ∈ l → set_add x l = l.
Proof. intros H. unfold set_add. by rewrite bool_decide_eq_true_2. Qed.

Lemma set_add_NoDup (x : nat) (l : list nat) : NoDup l → NoDup (set_add x l).
Proof.
  intros H. unfold set_add. case_bool_decide; [done|].
  apply NoDup_app. split_and!; [done| |apply NoDup_singleton].
  intros y Hy ->%list_elem_of_singleton. done.
Qed.

Lemma truthy_intro (s : string) : s ≠ "" → truthy (Some s) = true.
Proof. intros H. simpl. by apply negb_true_iff, String.eqb_neq. Qed.

Lemma is_str_intro (v : option string) (s : string) : v = Some s → is_str v s = true.
Proof. intros ->. unfold is_str. by apply bool_decide_eq_true. Qed.

(** ** The two blocks of [limpiarRecursos] *)

Lemma limpiarRecursos_eq ws st s :
  sockets st !! ws = Some s →
  limpiarRecursos ws st
  = (forget_peer ws s (leave_room ws s st).1, (leave_room ws s st).2).
Proof. intros Hs. unfold limpiarRecursos. rewrite Hs. by destruct (leave_room ws s st). Qed.

Lemma leave_room_sockets ws s st : sockets (leave_room ws s st).1 = sockets st.
Proof. unfold leave_room. by repeat case_match. Qed.

Lemma leave_room_pendingMatches ws s st :
  pendingMatches (leave_room ws s st).1 = pendingMatches st.
Proof. unfold leave_room. by repeat case_match. Qed.

Lemma leave_room_appClients ws s st :
  appClients (leave_room ws s st).1 = appClients st.
Proof. unfold leave_room. by repeat case_match. Qed.

Lemma leave_room_connectionsPerIP ws s st :
  connectionsPerIP (leave_room ws s st).1 = connectionsPerIP st.
Proof. unfold leave_room. by repeat case_match. Qed.

Lemma forget_peer_sockets ws s st : sockets (forget_peer ws s st) = sockets st.
Proof. unfold forget_peer. by case_match. Qed.

Lemma forget_peer_rooms ws s st : rooms (forget_peer ws s st) = rooms st.
Proof. unfold forget_peer. by case_match. Qed.

Lemma forget_peer_cloakRooms ws s st : cloakRooms (forget_peer ws s st) = cloakRooms st.
Proof. unfold forget_peer. by case_match. Qed.

Lemma forget_peer_connectionsPerIP ws s st :
  connectionsPerIP (forget_peer ws s st) = connectionsPerIP st.
Proof. unfold forget_peer. by case_match. Qed.

Lemma limpiarRecursos_sockets ws st : sockets (limpiarRecursos ws st).1 = sockets st.
Proof.
  destruct (sockets st !! ws) as [s|] eqn:Hs.
  - rewrite (limpiarRecursos_eq ws st s Hs). simpl.
    by rewrite forget_peer_sockets, leave_room_sockets.
  - unfold limpiarRecursos. by rewrite Hs.
Qed.

(** What [limpiarRecursos] sends is one broadcast, made over a state with
    the sockets of [st]. *)
Lemma limpiarRecursos_actions ws st :
  (limpiarRecursos ws st).2 = []
  ∨ ∃ roomId m st', sockets st' = sockets st
                    ∧ (limpiarRecursos ws st).2 = broadcastToRoom roomId m None None st'.
Proof.
  destruct (sockets st !! ws) as [s|] eqn:Hs.
  - rewrite (limpiarRecursos_eq ws st s Hs). simpl. unfold leave_room.
    repeat case_match; simpl; auto; right; eexists _, _, _; (split; [|done]); done.
  - unfold limpiarRecursos. rewrite Hs. by left.
Qed.

(** ** What the handlers leave alone in a socket *)

#[local] Instance same_preorder {A} (proj : socket → A) : PreOrder (same proj).
Proof. split; [by intros s|]. intros s1 s2 s3 H1 H2. unfold same in *. congruence. Qed.

Section Keeps.

Context (R : relation socket) `{!PreOrder R}.

Lemma keeps_refl r st : keeps R r st st.
Proof. intros s Hs. exists s. split; [done|reflexivity]. Qed.

Lemma keeps_trans r st1 st2 st3 :
  keeps R r st1 st2 → keeps R r st2 st3 → keeps R r st1 st3.
Proof.
  intros H12 H23 s Hs. destruct (H12 s Hs) as (s2 & Hs2 & E2).
  destruct (H23 s2 Hs2) as (s3 & Hs3 & E3). exists s3.
  split; [done|by etransitivity].
Qed.

Lemma keeps_same_sockets r st st' :
  sockets st' = sockets st → keeps R r st st'.
Proof. intros E. intros s Hs. rewrite E. exists s. split; [done|reflexivity]. Qed.

Lemma keeps_upd_socket r w f st :
  (w = r → ∀ s, R s (f s)) → keeps R r st (upd_socket w f st).
Proof.
  intros Hf s Hs. simpl. destruct (decide (w = r)) as [->|Hne].
  - exists (f s). split; [|by apply Hf]. by rewrite lookup_alter_eq, Hs.
  - exists s. split; [|reflexivity]. by rewrite lookup_alter_ne.
Qed.

Lemma keeps_insert_other r w s0 st :
  w ≠ r → keeps R r st (set_sockets (<[w := s0]>) st).
Proof.
  intros Hne s Hs. exists s. split; [|reflexivity].
  simpl. by rewrite lookup_insert_ne.
Qed.

Lemma keeps_join_admit r ws data ref st :
  room_blind R → keeps R r st (join_admit ws data ref st).1.
Proof.
  intros Hb. unfold join_admit. destruct (sockets st !! ws); [|apply keeps_refl].
  simpl. eapply keeps_trans; [apply keeps_upd_socket; intros _ s0; apply Hb|].
  by apply keeps_same_sockets.
Qed.

Lemma keeps_join_check r ws data ref st :
  room_blind R → keeps R r st (state_of (join_check ws data ref st)).
Proof.
  intros Hb. unfold join_check. repeat case_match; try apply keeps_refl.
  by apply keeps_join_admit.
Qed.

Lemma keeps_join_create r ws data h now st :
  room_blind R → keeps R r st (state_of (join_create ws data h now st)).
Proof.
  intros Hb. unfold join_create.
  eapply keeps_trans; [|by apply keeps_join_check]. by apply keeps_same_sockets.
Qed.

Lemma keeps_handleCloakLogic r ws data now st :
  room_blind R → keeps R r st (state_of (handleCloakLogic ws data now st)).
Proof.
  intros Hb. unfold handleCloakLogic, join.
  repeat case_match; try apply keeps_refl;
    auto using keeps_join_create, keeps_join_check.
Qed.

Lemma keeps_resume r k salt now st :
  room_blind R → keeps R r st (state_of (resume k salt now st)).
Proof.
  intros Hb. destruct k; simpl; [by apply keeps_join_create|].
  case_match; [apply keeps_refl|]. by apply keeps_join_admit.
Qed.

Lemma keeps_handleMessengerLogic r ws data f st :
  peer_blind R ∨ ws ≠ r ∨ registers data = false →
  keeps R r st (handleMessengerLogic ws data f st).1.
Proof.
  intros Hb. unfold handleMessengerLogic.
  set (st0 := if bool_decide _ then st else _).
  assert (keeps R r st st0) as H0.
  { subst st0. case_match; [apply keeps_refl|by apply keeps_same_sockets]. }
  eapply keeps_trans; [exact H0|]. clear H0.
  destruct (is_str (d_type data) "register") eqn:Ereg.
  - destruct (truthy (d_peerId data)) eqn:Et; [|apply keeps_refl].
    assert (keeps R r st0
              (upd_socket ws (with_peerId (d_peerId data))
                 (set_appClients (alter <[str (d_peerId data):=ws]> messenger) st0)))
      as H1.
    { eapply keeps_trans; [|apply keeps_upd_socket]; [by apply keeps_same_sockets|].
      intros -> s. destruct Hb as [Hb|[Hb|Hb]]; [apply Hb|done|].
      unfold registers in Hb. by rewrite Ereg, Et in Hb. }
    case_match; simpl; [|done].
    eapply keeps_trans; [exact H1|]. by apply keeps_same_sockets.
  - repeat case_match; simpl; try apply keeps_refl; by apply keeps_same_sockets.
Qed.

Lemma keeps_limpiarRecursos r ws st :
  keeps R r st (limpiarRecursos ws st).1.
Proof.
  apply keeps_same_sockets, limpiarRecursos_sockets.
Qed.

Lemma keeps_on_close r ws st :
  life_blind R → keeps R r st (on_close ws st).1.
Proof.
  intros (_ & _ & Hb). unfold on_close. simpl.
  destruct (sockets st !! ws) eqn:E; [|by apply keeps_same_sockets].
  eapply keeps_trans; [|apply keeps_limpiarRecursos].
  assert (keeps R r st (upd_socket ws (with_readyState CLOSED)
                          (set_wss_clients (set_delete ws) st))) as H1.
  { eapply keeps_trans; [|apply keeps_upd_socket; intros _ s0; apply Hb].
    by apply keeps_same_sockets. }
  case_match; (eapply keeps_trans; [exact H1|]); by apply keeps_same_sockets.
Qed.

Lemma keeps_sweep r l st acts :
  life_blind R → keeps R r st (foldl sweep_one (st, acts) l).1.
Proof.
  intros (Hc & Ha & _). revert st acts.
  induction l as [|w l IH]; intros st acts; [apply keeps_refl|].
  simpl. repeat case_match; (eapply keeps_trans; [|apply IH]).
  - apply keeps_upd_socket. intros _ s0. apply Hc.
  - apply keeps_upd_socket. intros _ s0. apply Ha.
  - apply keeps_refl.
Qed.

(** After the head of the message handler, the rest of it leaves the
    sender's socket as the rate limiter set it, up to [R]. *)
Lemma on_message_sender ws now f st s :
  sockets st !! ws = Some s →
  room_blind R → life_blind R →
  (peer_blind R ∨ ∀ data, f_json f = Some data →
                     is_str (d_appType data) "cudi-messenger" = true →
                     registers data = false) →
  ∃ s', sockets (state_of (on_message ws now f st)) !! ws = Some s'
        ∧ R (rate_limit now s) s'.
Proof.
  intros Hs Hr Hl Hp. unfold on_message. rewrite Hs.
  set (st1 := set_sockets _ st).
  assert (sockets st1 !! ws = Some (rate_limit now s)) as H1.
  { subst st1. simpl. apply lookup_insert_eq. }
  assert (∀ st2, keeps R ws st1 st2 →
            ∃ s', sockets st2 !! ws = Some s' ∧ R (rate_limit now s) s')
    as Hk by (intros st2 H2; by apply H2).
  destruct Hl as (Hc & Ha & Hrs).
  repeat case_match; simplify_eq; apply Hk; unfold state_of; simpl;
    try apply keeps_refl;
    try (apply keeps_upd_socket; intros _ s0; apply Hc).
  - by apply keeps_handleCloakLogic.
  - apply keeps_handleMessengerLogic. destruct Hp as [Hp|Hp]; [by left|].
    right; right. by apply Hp.
Qed.

Lemma keeps_on_message_other r ws now f st :
  ws ≠ r → room_blind R → life_blind R →
  keeps R r st (state_of (on_message ws now f st)).
Proof.
  intros Hne Hr (Hc & Ha & Hrs). unfold on_message.
  destruct (sockets st !! ws) as [s|] eqn:Hs; [|apply keeps_refl].
  set (st1 := set_sockets _ st).
  assert (keeps R r st st1) as H1 by (by apply keeps_insert_other).
  repeat case_match; simplify_eq; (eapply keeps_trans; [exact H1|]);
    unfold state_of; simpl; try apply keeps_refl;
    try (apply keeps_upd_socket; intros _ s0; apply Hc).
  - by apply keeps_handleCloakLogic.
  - apply keeps_handleMessengerLogic. auto.
Qed.

Lemma keeps_on_connection r ws ip id now st :
  ws ≠ r → keeps R r st (on_connection ws ip id now st).1.
Proof.
  intros Hne. unfold on_connection. case_match; simpl.
  - by apply keeps_same_sockets.
  - eapply keeps_trans; [|by apply keeps_insert_other].
    by apply keeps_same_sockets.
Qed.

Lemma keeps_step r e st :
  room_blind R → life_blind R → foreign_to r e →
  keeps R r st (state_of (step e st)).
Proof.
  intros Hr Hl He. destruct e; simpl in *; unfold state_of; simpl.
  - by apply keeps_on_connection.
  - by apply keeps_on_message_other.
  - by apply keeps_resume.
  - by apply keeps_on_close.
  - apply keeps_upd_socket. intros _ s. apply Hl.
  - by apply keeps_sweep.
  - unfold on_timeout. case_match; [by apply keeps_same_sockets|apply keeps_refl].
Qed.

End Keeps.

(** ** Which handlers close a socket *)

Lemma no_close_elem acts w c : no_close acts → Close w c ∉ acts.
Proof. intros H Hin. unfold no_close in H. rewrite Forall_forall in H. by apply H in Hin. Qed.

Lemma no_close_broadcastToRoom roomId m sender targetId st :
  no_close (broadcastToRoom roomId m sender targetId st).
Proof.
  unfold broadcastToRoom, no_close. case_match; [|constructor].
  induction (clients _) as [|c l IH]; simpl; [constructor|].
  apply Forall_app. split; [|done].
  repeat case_match; repeat constructor.
Qed.

Lemma no_close_join_admit ws data ref st : no_close (join_admit ws data ref st).2.
Proof.
  unfold join_admit. case_match; simpl; [|constructor].
  constructor; [done|apply no_close_broadcastToRoom].
Qed.

Lemma no_close_join_check ws data ref st :
  no_close (actions_of (join_check ws data ref st)).
Proof.
  unfold join_check. repeat case_match; unfold actions_of; simpl;
    repeat constructor. apply no_close_join_admit.
Qed.

Lemma no_close_handleCloakLogic ws data now st :
  no_close (actions_of (handleCloakLogic ws data now st)).
Proof.
  unfold handleCloakLogic, join, join_create.
  repeat case_match; try apply no_close_join_check;
    unfold actions_of; simpl; repeat constructor.
  apply no_close_broadcastToRoom.
Qed.

Lemma no_close_resume k salt now st : no_close (actions_of (resume k salt now st)).
Proof.
  destruct k; simpl; [apply no_close_join_check|].
  case_match; unfold actions_of; simpl; repeat constructor.
  apply no_close_join_admit.
Qed.

Lemma no_close_handleMessengerLogic ws data f st :
  no_close (handleMessengerLogic ws data f st).2.
Proof.
  unfold handleMessengerLogic. repeat case_match; simpl; repeat constructor.
Qed.

Lemma no_close_limpiarRecursos ws st : no_close (limpiarRecursos ws st).2.
Proof.
  destruct (limpiarRecursos_actions ws st) as [->|(roomId & m & st' & _ & ->)];
    [constructor|apply no_close_broadcastToRoom].
Qed.

Lemma no_close_sweep l st acts :
  no_close acts → no_close (foldl sweep_one (st, acts) l).2.
Proof.
  revert st acts. induction l as [|w l IH]; intros st acts H; [done|].
  simpl. repeat case_match; apply IH; apply Forall_app; split; auto;
    repeat constructor.
Qed.

Lemma close_1011_message ws now f st s :
  sockets st !! ws = Some s →
  Close ws 1011 ∈ actions_of (on_message ws now f st) ↔ over_limit now s = true.
Proof.
  intros Hs. unfold on_message, over_limit. rewrite Hs.
  destruct (50 <? ws_msgCount (rate_limit now s))%Z.
  { unfold actions_of; simpl. split; [done|]. intros _. apply list_elem_of_here. }
  split; [|discriminate]. intros Hin. exfalso. revert Hin.
  repeat case_match; unfold actions_of; simpl.
  - intros [=]%list_elem_of_singleton.
  - apply no_close_elem, no_close_handleCloakLogic.
  - apply no_close_elem, no_close_handleMessengerLogic.
  - apply not_elem_of_nil.
  - apply not_elem_of_nil.
Qed.

Lemma close_foreign r c e st :
  foreign_to r e → Close r c ∉ actions_of (step e st).
Proof.
  intros He. destruct e; simpl in *; unfold actions_of; simpl.
  - unfold on_connection. case_match; simpl; [|apply not_elem_of_nil].
    intros [=]%list_elem_of_singleton.
  - unfold on_message. repeat case_match; simpl;
      try apply not_elem_of_nil;
      try (intros [=]%list_elem_of_singleton; congruence).
    + apply no_close_elem, no_close_handleCloakLogic.
    + apply no_close_elem, no_close_handleMessengerLogic.
  - apply no_close_elem, no_close_resume.
  - unfold on_close. case_match; simpl; [|apply not_elem_of_nil].
    apply no_close_elem, no_close_limpiarRecursos.
  - apply not_elem_of_nil.
  - apply no_close_elem, no_close_sweep. constructor.
  - apply not_elem_of_nil.
Qed.

(** ** The rate-limit window *)

Lemma window_room_blind : room_blind (same window).
Proof. by intros a x s. Qed.
Lemma window_peer_blind : peer_blind (same window).
Proof. by intros p s. Qed.
Lemma window_life_blind : life_blind (same window).
Proof. split_and!; [intros s; unfold closing; by case_match|done|done]. Qed.

Lemma rate_limit_same_window now s :
  (now - ws_msgTs s ≤ 1000)%Z →
  window (rate_limit now s) = (ws_msgTs s, (ws_msgCount s + 1)%Z).
Proof.
  intros H. unfold rate_limit.
  destruct (1000 <? now - ws_msgTs s)%Z eqn:E; [apply Z.ltb_lt in E; lia|done].
Qed.

Lemma rate_limit_reset now s :
  (1000 < now - ws_msgTs s)%Z → window (rate_limit now s) = (now, 1%Z).
Proof.
  intros H. unfold rate_limit.
  destruct (1000 <? now - ws_msgTs s)%Z eqn:E; [done|apply Z.ltb_ge in E; lia].
Qed.

Lemma run_cons_actions e es st :
  (run (e :: es) st).2 = actions_of (step e st) ++ (run es (state_of (step e st))).2.
Proof. simpl. by destruct (run es _). Qed.

Lemma run_cons_state e es st :
  (run (e :: es) st).1 = (run es (state_of (step e st))).1.
Proof. simpl. by destruct (run es _). Qed.

Lemma burst_in_window ws es : ∀ st s,
  sockets st !! ws = Some s →
  Forall (in_window ws (ws_msgTs s)) es →
  let n := Z.of_nat (length (filter (λ e, from_ws ws e = true) es)) in
  ((ws_msgCount s + n ≤ 50)%Z → Close ws 1011 ∉ (run es st).2)
  ∧ ((50 < ws_msgCount s + n)%Z → (0 < n)%Z → Close ws 1011 ∈ (run es st).2).
Proof.
  induction es as [|e es IH]; intros st s Hs Hall.
  { simpl. split; [intros _; apply not_elem_of_nil|lia]. }
  apply Forall_cons in Hall as [He Hall].
  rewrite run_cons_actions.
  destruct (from_ws ws e) eqn:Efrom.
  - destruct e as [| w now f | | | | |]; try discriminate. simpl in Efrom.
    apply bool_decide_eq_true in Efrom. subst w. simpl in He.
    specialize (He eq_refl).
    rewrite filter_cons_True by (simpl; by rewrite bool_decide_eq_true_2).
    destruct (on_message_sender (same window) ws now f st s Hs window_room_blind
                window_life_blind (or_introl window_peer_blind)) as (s' & Hs' & Hw).
    unfold same in Hw. rewrite rate_limit_same_window in Hw by done.
    injection Hw as Hts Hcnt.
    specialize (IH (state_of (step (EMessage ws now f) st)) s' Hs').
    rewrite Hts in IH. specialize (IH Hall). cbv zeta in IH.
    destruct IH as [IH1 IH2]. rewrite Hcnt in IH1, IH2.
    pose proof (close_1011_message ws now f st s Hs) as Hclose.
    unfold over_limit in Hclose.
    assert (ws_msgCount (rate_limit now s) = ws_msgCount s + 1)%Z as Hc.
    { pose proof (rate_limit_same_window now s He) as E. by injection E. }
    rewrite Hc in Hclose. cbv zeta. simpl length. split.
    + intros Hle [Hin|Hin]%elem_of_app.
      * apply Hclose, Z.ltb_lt in Hin. lia.
      * apply IH1 in Hin; [done|lia].
    + intros Hlt Hpos. apply elem_of_app.
      destruct (decide (50 < ws_msgCount s + 1)%Z) as [Hnow|Hnow].
      * left. apply Hclose, Z.ltb_lt. done.
      * right. apply IH2; lia.
  - assert (foreign_to ws e) as Hf.
    { destruct e; simpl in *; try done. intros ->.
      by rewrite bool_decide_eq_true_2 in Efrom. }
    rewrite filter_cons_False by (simpl; by rewrite Efrom).
    destruct (keeps_step (same window) ws e st window_room_blind window_life_blind Hf s Hs)
      as (s' & Hs' & Hw).
    unfold same in Hw. injection Hw as Hts Hcnt.
    specialize (IH (state_of (step e st)) s' Hs').
    rewrite Hts in IH. specialize (IH Hall). cbv zeta in IH.
    destruct IH as [IH1 IH2]. rewrite Hcnt in IH1, IH2.
    cbv zeta. split.
    + intros Hle [Hin|Hin]%elem_of_app.
      * by apply close_foreign in Hin.
      * by apply IH1 in Hin.
    + intros Hlt Hpos. apply elem_of_app. right. by apply IH2.
Qed.

(** C7 (amended). Take the messages that a connection sends no later than
    1000 ms after the start timestamp of its current window, whatever other
    connections do in between. The relay answers with [ws.close(1011)] as
    soon as the count of the window exceeds 50 and not before: counted from
    a window with no message in it (a connection just admitted), 51
    messages are closed and 50 are not. A message arriving more than
    1000 ms after the window's start resets the window (timestamp = now,
    count = 0) before it is counted, so it leaves the count at 1 and is not
    closed. *)
Theorem C7_rate_limit_window (st : state) (ws : nat) (s : socket) (es : list event)
    (Hsock : sockets st !! ws = Some s)
    (Hwin : Forall (in_window ws (ws_msgTs s)) es) :
  let n := Z.of_nat (length (filter (λ e, from_ws ws e = true) es)) in
  ((ws_msgCount s + n ≤ 50)%Z → Close ws 1011 ∉ (run es st).2)
  ∧ ((51 ≤ ws_msgCount s + n)%Z → (1 ≤ n)%Z → Close ws 1011 ∈ (run es st).2)
  ∧ (ws_msgCount s = 0%Z →
     ((n ≤ 50)%Z → Close ws 1011 ∉ (run es st).2)
     ∧ ((51 ≤ n)%Z → Close ws 1011 ∈ (run es st).2))
  ∧ (∀ st0 s0 now f,
       sockets st0 !! ws = Some s0 → (1000 < now - ws_msgTs s0)%Z →
       (Close ws 1011 ∉ actions_of (on_message ws now f st0))
       ∧ (∃ s', sockets (state_of (on_message ws now f st0)) !! ws = Some s'
                ∧ ws_msgTs s' = now ∧ ws_msgCount s' = 1%Z)).
Proof.
  intros n. pose proof (burst_in_window ws es st s Hsock Hwin) as [H1 H2].
  fold n in H1, H2. split_and!.
  - exact H1.
  - intros Hn Hpos. apply H2; lia.
  - intros Hfresh. rewrite Hfresh in H1, H2. split.
    + intros Hn. apply H1. lia.
    + intros Hn. apply H2; lia.
  - intros st0 s0 now f Hs0 Hlate. split.
    + rewrite (close_1011_message ws now f st0 s0 Hs0). unfold over_limit.
      assert (ws_msgCount (rate_limit now s0) = 1%Z) as ->
        by exact (f_equal snd (rate_limit_reset now s0 Hlate)).
      done.
    + destruct (on_message_sender (same window) ws now f st0 s0 Hs0 window_room_blind
                  window_life_blind (or_introl window_peer_blind)) as (s' & Hs' & Hw).
      unfold same in Hw. rewrite rate_limit_reset in Hw by done.
      injection Hw as Hts Hcnt. eauto.
Qed.

(** ** The per-address counter *)

Lemma limpiarRecursos_connectionsPerIP ws st :
  connectionsPerIP (limpiarRecursos ws st).1 = connectionsPerIP st.
Proof.
  destruct (sockets st !! ws) as [s|] eqn:Hs.
  - rewrite (limpiarRecursos_eq ws st s Hs). simpl.
    by rewrite forget_peer_connectionsPerIP, leave_room_connectionsPerIP.
  - unfold limpiarRecursos. by rewrite Hs.
Qed.

Lemma on_close_counter ws st s m :
  sockets st !! ws = Some s →
  connectionsPerIP st !! ws_ip s = Some (JNum m) →
  connectionsPerIP (on_close ws st).1 =
    if (m <=? 1)%Z then delete (ws_ip s) (connectionsPerIP st)
    else <[ws_ip s := JNum (m - 1)]> (connectionsPerIP st).
Proof.
  intros Hs Hm. unfold on_close. simpl. rewrite Hs.
  rewrite limpiarRecursos_connectionsPerIP. simpl. rewrite Hm. simpl.
  destruct (m <=? 1)%Z eqn:E1.
  - apply Z.leb_le in E1. rewrite (proj2 (Z.leb_le (m - 1) 0)) by lia. done.
  - apply Z.leb_gt in E1. rewrite (proj2 (Z.leb_gt (m - 1) 0)) by lia. done.
Qed.

(** C4 (amended). When the source address already has 20 (or more) open
    connections, a new connection is terminated at once; the counter is
    left as it was (the attempt's increment is never stored) and the
    rejected socket gets no [close] handler, so its close changes nothing
    either: admission and accounting stay symmetric. A connection below
    the ceiling stores the incremented count, and the close of an admitted
    connection decrements it, deleting the key when it reaches zero. *)
Theorem C4_rejected_connection_not_counted (st : state) (ws : nat) (ip id : string)
    (now n : Z)
    (Hcount : connectionsPerIP st !! ip = Some (JNum n))
    (Hfull : (20 ≤ n)%Z)
    (Hnew : sockets st !! ws = None) :
  let r := on_connection ws ip id now st in
  r.2 = [Terminate ws]
  ∧ connectionsPerIP r.1 = connectionsPerIP st
  ∧ sockets r.1 = sockets st
  ∧ (on_close ws r.1).2 = []
  ∧ connectionsPerIP (on_close ws r.1).1 = connectionsPerIP st
  ∧ (∀ st' w ip' id' now',
       (or0_succ (connectionsPerIP st' !! ip') ≤ 20)%Z →
       connectionsPerIP (on_connection w ip' id' now' st').1
         = <[ip' := JNum (or0_succ (connectionsPerIP st' !! ip'))]>
             (connectionsPerIP st'))
  ∧ (∀ st' w s' m,
       sockets st' !! w = Some s' →
       connectionsPerIP st' !! ws_ip s' = Some (JNum m) →
       connectionsPerIP (on_close w st').1 =
         if (m <=? 1)%Z then delete (ws_ip s') (connectionsPerIP st')
         else <[ws_ip s' := JNum (m - 1)]> (connectionsPerIP st')).
Proof.
  intros r. subst r. unfold on_connection. simpl. rewrite Hcount. simpl.
  rewrite (proj2 (Z.ltb_lt 20 (n + 1))) by lia. simpl.
  unfold on_close. simpl. rewrite Hnew. simpl. split_and!; try done.
  - intros st' w ip' id' now' Hle.
    by rewrite (proj2 (Z.ltb_ge 20 _)) by done.
  - intros st' w s' m Hs' Hm. by apply on_close_counter.
Qed.

(** ** The peer directory *)

Lemma with_namespace_sockets st : sockets (with_namespace st) = sockets st.
Proof. unfold with_namespace. by case_match. Qed.

Lemma with_namespace_pendingMatches st :
  pendingMatches (with_namespace st) = pendingMatches st.
Proof. unfold with_namespace. by case_match. Qed.

Lemma with_namespace_directory st : directory (with_namespace st) = directory st.
Proof.
  unfold with_namespace, directory. case_bool_decide as H; [done|]. simpl.
  rewrite lookup_insert_eq. destruct (appClients st !! messenger) eqn:E; [|done].
  destruct H. eauto.
Qed.

Lemma with_namespace_is_Some st : is_Some (appClients (with_namespace st) !! messenger).
Proof.
  unfold with_namespace. case_bool_decide as H; [done|]. simpl.
  rewrite lookup_insert_eq. eauto.
Qed.

Lemma directory_register st X w :
  is_Some (appClients st !! messenger) →
  directory (set_appClients (alter (<[X := w]>) messenger) st) = <[X := w]> (directory st).
Proof.
  intros [d Hd]. unfold directory. simpl. by rewrite lookup_alter_eq, Hd.
Qed.

(** [register(X)] while a pending match for [X] points at an open
    requester [r]. *)
Lemma register_resolves st w r X data f sr :
  d_type data = Some "register" → d_peerId data = Some X → X ≠ "" →
  pendingMatches st !! X = Some r →
  sockets st !! r = Some sr → is_open sr = true →
  let res := handleMessengerLogic w data f st in
  pendingMatches res.1 = delete X (pendingMatches st)
  ∧ directory res.1 = <[X := w]> (directory st)
  ∧ ∃ sr', sockets res.1 !! r = Some sr'
           ∧ (w ≠ r → sr' = sr) ∧ (w = r → ws_peerId sr' = Some X)
           ∧ res.2 = [Send w (MRegistered X); Send r (MPeerFound (Some X));
                      Send w (MPeerFound (ws_peerId sr'))].
Proof.
  intros Ht Hp HX Hpend Hr Hopen. unfold handleMessengerLogic.
  fold (with_namespace st). rewrite (is_str_intro _ _ Ht), Hp, (truthy_intro X HX).
  simpl. rewrite with_namespace_pendingMatches, Hpend. simpl.
  rewrite with_namespace_sockets.
  split; [by rewrite with_namespace_pendingMatches|]. split.
  { pose proof (directory_register (with_namespace st) X w
                  (with_namespace_is_Some st)) as E.
    unfold directory in *. simpl in *. rewrite E.
    pose proof (with_namespace_directory st) as E'. unfold directory in E'.
    by rewrite E'. }
  destruct (decide (w = r)) as [->|Hne].
  - rewrite lookup_alter_eq, Hr. simpl.
    replace (is_open (with_peerId (Some X) sr)) with true by done.
    eexists. split; [done|]. split; [done|]. split; done.
  - rewrite lookup_alter_ne, Hr by done. rewrite Hopen.
    eexists. split; [done|]. split; [done|]. split; done.
Qed.

(** [register(X)] with no pending match for [X]. *)
Lemma register_plain st w X data f :
  d_type data = Some "register" → d_peerId data = Some X → X ≠ "" →
  pendingMatches st !! X = None →
  (handleMessengerLogic w data f st).2 = [Send w (MRegistered X)]
  ∧ pendingMatches (handleMessengerLogic w data f st).1 = pendingMatches st.
Proof.
  intros Ht Hp HX Hpend. unfold handleMessengerLogic. fold (with_namespace st).
  rewrite (is_str_intro _ _ Ht), Hp, (truthy_intro X HX).
  simpl. rewrite with_namespace_pendingMatches, Hpend. simpl.
  by rewrite with_namespace_pendingMatches.
Qed.

(** [find_peer(X)] while [X] is not registered. *)
Lemma find_peer_defers st r X data f :
  d_type data = Some "find_peer" → d_targetPeerId data = Some X → X ≠ "" →
  directory st !! X = None →
  handleMessengerLogic r data f st
  = (set_pendingMatches (<[X := r]>) (with_namespace st), [SetTimeout X r 300000]).
Proof.
  intros Ht Hp HX Hdir. unfold handleMessengerLogic. fold (with_namespace st).
  assert (is_str (d_type data) "register" = false) as ->.
  { rewrite Ht. unfold is_str. by apply bool_decide_eq_false. }
  rewrite (is_str_intro _ _ Ht), Hp, (truthy_intro X HX). simpl.
  rewrite with_namespace_directory, Hdir.
  rewrite bool_decide_eq_false_2; [done|]. by intros [? [=]].
Qed.

(** C8 (amended). A [find_peer(X)] for an unregistered [X] records a
    pending match. Whatever happens next, as long as that match still
    points at its requester (it has not expired and no later
    [find_peer(X)] of another connection has replaced it) and the
    requester is open, [register(X)] sends exactly one [peer_found] to the
    requester and exactly one to the registering peer (after its
    [registered] acknowledgement), and removes the pending match; a
    [register(X)] repeated while no new match is pending only gets its
    acknowledgement: the requester is not notified again. *)
Theorem C8_find_peer_then_register (st : state) (r w w2 : nat) (X : string)
    (find reg : payload) (f f2 f3 : frame) (es : list event) (sr : socket)
    (Hfind : d_type find = Some "find_peer")
    (Htarget : d_targetPeerId find = Some X)
    (Hreg : d_type reg = Some "register")
    (Hpid : d_peerId reg = Some X)
    (HX : X ≠ "")
    (Hunreg : directory st !! X = None) :
  let st1 := (handleMessengerLogic r find f st).1 in
  let st2 := (run es st1).1 in
  (handleMessengerLogic r find f st).2 = [SetTimeout X r 300000]
  ∧ pendingMatches st1 !! X = Some r
  ∧ (pendingMatches st2 !! X = Some r →
     sockets st2 !! r = Some sr → is_open sr = true →
     let res := handleMessengerLogic w reg f2 st2 in
     (∃ pid, res.2 = [Send w (MRegistered X); Send r (MPeerFound (Some X));
                      Send w (MPeerFound pid)])
     ∧ pendingMatches res.1 !! X = None
     ∧ (handleMessengerLogic w2 reg f3 res.1).2 = [Send w2 (MRegistered X)]
     ∧ (∀ st3, pendingMatches st3 !! X = None →
               (handleMessengerLogic w2 reg f3 st3).2 = [Send w2 (MRegistered X)])).
Proof.
  intros st1 st2. subst st1 st2.
  rewrite (find_peer_defers st r X find f Hfind Htarget HX Hunreg). simpl.
  split; [done|]. split; [apply lookup_insert_eq|].
  intros Hpend Hr Hopen.
  destruct (register_resolves _ w r X reg f2 sr Hreg Hpid HX Hpend Hr Hopen)
    as (Hdel & _ & sr' & _ & _ & _ & Hacts).
  cbv zeta in Hdel, Hacts.
  set (res := handleMessengerLogic w reg f2 _) in *.
  assert (pendingMatches res.1 !! X = None) as Hgone
    by (rewrite Hdel; apply lookup_delete_eq).
  split; [eauto|]. split; [done|]. split.
  - by apply register_plain.
  - intros st3 H3. by apply register_plain.
Qed.

(** ** Who registered *)




(** ** Who gets sent something *)

#[local] Instance stays_shut_preorder : PreOrder stays_shut.
Proof.
  split; [intros s H; exact H|]. intros s1 s2 s3 H1 H2 H. apply H2, H1, H.
Qed.

Lemma stays_shut_room_blind : room_blind stays_shut.
Proof. intros a x s H. exact H. Qed.
Lemma stays_shut_life_blind : life_blind stays_shut.
Proof.
  split_and!; [|intros b s H; exact H|intros s H; reflexivity].
  intros s _. unfold closing, is_open.
  by destruct (ws_readyState s) eqn:E; simpl; rewrite ?E.
Qed.

Lemma sends_to_open_nil a st : sends_to_open a st [].
Proof. intros t m Hin. by apply not_elem_of_nil in Hin. Qed.

Lemma sends_broadcastToRoom roomId msg0 sender targetId st t m :
  Send t m ∈ broadcastToRoom roomId msg0 sender targetId st →
  ∃ c, sockets st !! t = Some c ∧ is_open c = true.
Proof.
  unfold broadcastToRoom. case_match; [|by intros ?%not_elem_of_nil].
  induction (clients _) as [|x l IH]; simpl; [by intros ?%not_elem_of_nil|].
  intros [Hin|Hin]%elem_of_app; [|by apply IH].
  destruct (sockets st !! x) as [c|] eqn:Ex; [|by apply not_elem_of_nil in Hin].
  destruct (bool_decide (Some x ≠ sender) && is_open c) eqn:Eg;
    [|by apply not_elem_of_nil in Hin].
  apply andb_true_iff in Eg as [_ Eo].
  case_match; [by apply not_elem_of_nil in Hin|].
  apply list_elem_of_singleton in Hin. injection Hin as -> _. eauto.
Qed.

Lemma sends_join_admit a data ref st :
  sends_to_open (Some a) st (join_admit a data ref st).2.
Proof.
  intros t m. unfold join_admit. destruct (sockets st !! a) eqn:Ea; simpl;
    [|by intros ?%not_elem_of_nil].
  intros [Hin|Hin]%elem_of_cons; [left; by injection Hin as -> _|].
  destruct (decide (t = a)) as [->|Hne]; [by left|]. right.
  apply sends_broadcastToRoom in Hin as (c & Hc & Ho). simpl in Hc.
  rewrite lookup_alter_ne in Hc by done. eauto.
Qed.

Lemma sends_join_check a data ref st :
  sends_to_open (Some a) st (actions_of (join_check a data ref st)).
Proof.
  unfold join_check. repeat case_match; unfold actions_of; simpl;
    try apply sends_to_open_nil; try apply sends_join_admit.
  intros t m [= -> _]%list_elem_of_singleton. by left.
Qed.

Lemma sends_to_open_same_sockets a st st' acts :
  sockets st' = sockets st → sends_to_open a st' acts → sends_to_open a st acts.
Proof. intros E H t m Hin. rewrite <- E. by apply (H t m). Qed.

Lemma sends_join_create a data h now st :
  sends_to_open (Some a) st (actions_of (join_create a data h now st)).
Proof.
  unfold join_create. eapply sends_to_open_same_sockets; [|apply sends_join_check].
  done.
Qed.

Lemma sends_handleCloakLogic a data now st :
  sends_to_open (Some a) st (actions_of (handleCloakLogic a data now st)).
Proof.
  unfold handleCloakLogic, join.
  repeat case_match; try apply sends_join_create; try apply sends_join_check;
    unfold actions_of; simpl; try apply sends_to_open_nil.
  intros t m Hin. right. by apply sends_broadcastToRoom in Hin.
Qed.

Lemma sends_resume k salt now st a :
  (match k with AwaitHash w _ => w | AwaitCompare w _ _ _ => w end) = a →
  sends_to_open (Some a) st (actions_of (resume k salt now st)).
Proof.
  intros <-. destruct k; simpl; [apply sends_join_create|].
  case_match; unfold actions_of; simpl; [|apply sends_join_admit].
  intros t m [= -> _]%list_elem_of_singleton. by left.
Qed.

Lemma sends_handleMessengerLogic a data f st :
  sends_to_open (Some a) st (handleMessengerLogic a data f st).2.
Proof.
  intros t m. destruct (decide (t = a)) as [->|Hne]; [by left|].
  intros Hin. right. revert Hin. unfold handleMessengerLogic.
  fold (with_namespace st).
  repeat case_match; simpl; rewrite ?elem_of_cons, ?elem_of_nil;
    intros Hin; destruct_or?; simplify_eq; try done.
  - match goal with H : sockets _ !! _ = Some _ |- _ => simpl in H;
      rewrite lookup_alter_ne, with_namespace_sockets in H by done end. eauto.
  - match goal with H : sockets _ !! _ = Some ?c, H' : is_open ?c = true |- _ =>
      rewrite with_namespace_sockets in H end. eauto.
Qed.

Lemma sends_limpiarRecursos ws st t m :
  Send t m ∈ (limpiarRecursos ws st).2 →
  ∃ c, sockets st !! t = Some c ∧ is_open c = true.
Proof.
  destruct (limpiarRecursos_actions ws st) as [->|(roomId & m0 & st' & E & ->)];
    [by intros ?%not_elem_of_nil|].
  intros Hin%sends_broadcastToRoom. by rewrite <- E.
Qed.

Lemma sends_on_close ws st t m :
  Send t m ∈ (on_close ws st).2 →
  t ≠ ws ∧ ∃ c, sockets st !! t = Some c ∧ is_open c = true.
Proof.
  unfold on_close. simpl. destruct (sockets st !! ws) as [s|] eqn:Es;
    [|by intros ?%not_elem_of_nil].
  intros (c & Hc & Ho)%sends_limpiarRecursos.
  assert (sockets st !! t = Some c ∧ t ≠ ws) as [? ?]; [|eauto].
  revert Hc. case_match; simpl; (destruct (decide (t = ws)) as [->|Hne];
    [rewrite lookup_alter_eq, Es; simpl; intros [= <-]; done
    |rewrite lookup_alter_ne by done; done]).
Qed.

Lemma sends_sweep l st acts t m :
  Send t m ∈ (foldl sweep_one (st, acts) l).2 → Send t m ∈ acts.
Proof.
  revert st acts. induction l as [|w l IH]; intros st acts; [done|].
  simpl. repeat case_match; intros Hin%IH;
    apply elem_of_app in Hin as [Hin|Hin%list_elem_of_singleton]; done.
Qed.

Lemma sends_on_message a now f st :
  sends_to_open (Some a) st (actions_of (on_message a now f st)).
Proof.
  unfold on_message. destruct (sockets st !! a) as [s|] eqn:Es;
    [|apply sends_to_open_nil].
  set (st1 := set_sockets _ st).
  assert (∀ acts, sends_to_open (Some a) st1 acts → sends_to_open (Some a) st acts)
    as Hback.
  { intros acts H t m Hin. destruct (decide (t = a)) as [->|Hne]; [by left|].
    destruct (H t m Hin) as [[=]|(c & Hc & Ho)]; [done|]. right.
    subst st1. simpl in Hc. rewrite lookup_insert_ne in Hc by done. eauto. }
  repeat case_match; unfold actions_of; simpl; try apply sends_to_open_nil;
    try (intros t m [=]%list_elem_of_singleton).
  - apply Hback, sends_handleCloakLogic.
  - apply Hback, sends_handleMessengerLogic.
Qed.

Lemma silent_foreign ws e : silent_for ws e → foreign_to ws e.
Proof. by destruct e. Qed.

Lemma no_send_to_shut ws e st s m :
  sockets st !! ws = Some s → is_open s = false → silent_for ws e →
  Send ws m ∉ actions_of (step e st).
Proof.
  intros Hs Hshut He Hin.
  assert (∀ a acts, a ≠ ws → sends_to_open (Some a) st acts → Send ws m ∉ acts)
    as Hno.
  { intros a acts Hne H Hin'. destruct (H ws m Hin') as [[=]|(c & Hc & Ho)]; [done|].
    congruence. }
  destruct e as [w ip id now|w now f|k salt now|w|w| |t w]; simpl in *;
    unfold actions_of in Hin; simpl in Hin.
  - unfold on_connection in Hin. revert Hin. case_match; simpl;
      [by intros [=]%list_elem_of_singleton|by intros ?%not_elem_of_nil].
  - by apply (Hno w _ He (sends_on_message w now f st)).
  - destruct k as [w data|w data ref digest].
    + by apply (Hno w _ He (sends_resume (AwaitHash w data) salt now st w eq_refl)).
    + by apply (Hno w _ He
                  (sends_resume (AwaitCompare w data ref digest) salt now st w eq_refl)).
  - apply sends_on_close in Hin as (_ & c & Hc & Ho). congruence.
  - by apply not_elem_of_nil in Hin.
  - apply sends_sweep in Hin. by apply not_elem_of_nil in Hin.
  - by apply not_elem_of_nil in Hin.
Qed.

Lemma shut_never_notified ws es : ∀ st s m,
  sockets st !! ws = Some s → is_open s = false → Forall (silent_for ws) es →
  Send ws m ∉ (run es st).2.
Proof.
  induction es as [|e es IH]; intros st s m Hs Hshut Hall;
    [apply not_elem_of_nil|].
  apply Forall_cons in Hall as [He Hall]. rewrite run_cons_actions.
  intros [Hin|Hin]%elem_of_app.
  - by apply (no_send_to_shut ws e st s m).
  - destruct (keeps_step stays_shut ws e st stays_shut_room_blind
                stays_shut_life_blind (silent_foreign ws e He) s Hs)
      as (s' & Hs' & Hk).
    by apply (IH _ s' m Hs' (Hk Hshut) Hall).
Qed.

(** ** Pending matches at teardown *)

Lemma on_close_socket ws st s :
  sockets st !! ws = Some s →
  sockets (on_close ws st).1 !! ws = Some (with_readyState CLOSED s).
Proof.
  intros Hs. unfold on_close. simpl. rewrite Hs.
  set (st2 := if js_le0 _ then _ else _).
  assert (sockets st2 !! ws = Some (with_readyState CLOSED s)) as H2.
  { subst st2. case_match; simpl; by rewrite lookup_alter_eq, Hs. }
  by rewrite limpiarRecursos_sockets.
Qed.

Lemma on_close_pendingMatches ws st s :
  sockets st !! ws = Some s →
  pendingMatches (on_close ws st).1 =
    if truthy (ws_peerId s) && bool_decide (is_Some (appClients st !! messenger))
    then filter (λ kv, kv.2 ≠ ws) (pendingMatches st)
    else pendingMatches st.
Proof.
  intros Hs. unfold on_close. simpl. rewrite Hs.
  set (st2 := if js_le0 _ then _ else _).
  assert (sockets st2 !! ws = Some (with_readyState CLOSED s)
          ∧ pendingMatches st2 = pendingMatches st
          ∧ appClients st2 = appClients st) as (H2 & <- & <-).
  { subst st2. case_match; simpl; by rewrite lookup_alter_eq, Hs. }
  rewrite (limpiarRecursos_eq ws st2 _ H2). unfold forget_peer. cbn [fst].
  rewrite leave_room_appClients.
  change (ws_peerId (with_readyState CLOSED s)) with (ws_peerId s).
  case_match; [|apply leave_room_pendingMatches].
  cbn [pendingMatches set_pendingMatches set_appClients].
  by rewrite leave_room_pendingMatches.
Qed.

(** The close of a socket tagged with peer id [P] deletes the directory
    entry of [P], whichever socket the entry points at. *)
Lemma on_close_directory ws st s P :
  sockets st !! ws = Some s → ws_peerId s = Some P → P ≠ "" →
  is_Some (appClients st !! messenger) →
  directory (on_close ws st).1 !! P = None.
Proof.
  intros Hs HP HPne [d Hd]. unfold on_close. simpl. rewrite Hs.
  set (st2 := if js_le0 _ then _ else _).
  assert (sockets st2 !! ws = Some (with_readyState CLOSED s)
          ∧ appClients st2 = appClients st) as (H2 & Happ).
  { subst st2. case_match; simpl; by rewrite lookup_alter_eq, Hs. }
  rewrite (limpiarRecursos_eq ws st2 _ H2). unfold forget_peer. cbn [fst].
  rewrite leave_room_appClients, Happ.
  change (ws_peerId (with_readyState CLOSED s)) with (ws_peerId s).
  rewrite HP, (truthy_intro P HPne), bool_decide_eq_true_2 by eauto.
  unfold directory. simpl. rewrite leave_room_appClients, Happ.
  rewrite lookup_alter_eq, Hd. simpl. apply lookup_delete_eq.
Qed.

(** C3. The close of a connection deletes the pending matches it
    created only when the connection carries a registered peer id: the
    scan of the pending matches sits inside the [ws.peerId] test of
    [limpiarRecursos]. A requester that never registered is marked closed
    while every pending match, its own included, stays as it was; had it
    registered, the same close would have deleted the match. *)
Theorem C3_close_keeps_pending_match_of_unregistered (st : state) (ws : nat)
    (s : socket) (target : string)
    (Hs : sockets st !! ws = Some s)
    (Hpend : pendingMatches st !! target = Some ws) :
  let st' := (on_close ws st).1 in
  ws_readyState <$> sockets st' !! ws = Some CLOSED
  ∧ (truthy (ws_peerId s) = false →
       pendingMatches st' = pendingMatches st
       ∧ pendingMatches st' !! target = Some ws)
  ∧ (truthy (ws_peerId s) = true → is_Some (appClients st !! messenger) →
       pendingMatches st' !! target = None).
Proof.
  intros st'. subst st'. rewrite (on_close_pendingMatches ws st s Hs).
  rewrite (on_close_socket ws st s Hs). split_and!.
  - done.
  - by intros ->.
  - intros -> Hns. rewrite bool_decide_eq_true_2 by done. simpl.
    apply map_lookup_filter_None. right.
    intros r Hr Hne. rewrite Hpend in Hr. injection Hr as <-. by apply Hne.
Qed.

(** ** Rooms: what a join does *)

Lemma filter_set_add ws (l : list nat) :
  filter (λ c, c ≠ ws) (set_add ws l) = filter (λ c, c ≠ ws) l.
Proof.
  unfold set_add. case_bool_decide; [done|].
  rewrite filter_app, filter_cons_False, filter_nil by (intros H'; by apply H').
  by rewrite app_nil_r.
Qed.

Lemma with_clients_same rm : with_clients (clients rm) rm = rm.
Proof. by destruct rm. Qed.

(** The state and the reply of an admitted join, in terms of the state
    before it. *)
Lemma join_admit_spec ws data ref st s rm :
  sockets st !! ws = Some s → rooms st !! ref = Some rm →
  let res := join_admit ws data ref st in
  rooms res.1 = <[ref := with_clients (set_add ws (clients rm)) rm]> (rooms st)
  ∧ cloakRooms res.1 = cloakRooms st
  ∧ sockets res.1
    = <[ws := with_alias (Some (or_else (d_alias data) "Cloaker"))
                (with_room (d_room data) s)]> (sockets st)
  ∧ res.2 = Send ws (MJoined (str (d_room data)) (ws_id s)
                       (omap (peer_entry res.1) (filter (λ c, c ≠ ws) (clients rm))))
            :: broadcastToRoom (str (d_room data))
                 (MPeerJoined (ws_id s) (or_else (d_alias data) "Cloaker"))
                 (Some ws) None res.1.
Proof.
  intros Hs Hrm. unfold join_admit. rewrite Hs. simpl.
  assert (alter (λ r, with_clients (set_add ws (clients r)) r) ref (rooms st)
          = <[ref := with_clients (set_add ws (clients rm)) rm]> (rooms st)) as Ealt.
  { apply map_eq. intros i. destruct (decide (i = ref)) as [->|Hne].
    - by rewrite lookup_alter_eq, lookup_insert_eq, Hrm.
    - by rewrite lookup_alter_ne, lookup_insert_ne. }
  split_and!; try done.
  - apply map_eq. intros i. destruct (decide (i = ws)) as [->|Hne].
    + by rewrite lookup_alter_eq, lookup_insert_eq, Hs.
    + by rewrite lookup_alter_ne, lookup_insert_ne.
  - unfold peersInRoom. simpl. rewrite Ealt, lookup_insert_eq. simpl.
    by rewrite filter_set_add.
Qed.

Lemma join_existing ws data now st R ref :
  d_type data = Some "join" → d_room data = Some R → R ≠ "" →
  cloakRooms st !! R = Some ref →
  handleCloakLogic ws data now st = join_check ws data ref st.
Proof.
  intros Ht Hr HR Href. unfold handleCloakLogic, join.
  by rewrite (is_str_intro _ _ Ht), Hr, (truthy_intro R HR); simpl; rewrite Href.
Qed.

Lemma join_check_open ws data ref st rm :
  rooms st !! ref = Some rm → truthy (password rm) = false →
  join_check ws data ref st = (join_admit ws data ref st, None).
Proof. intros Hrm Hp. unfold join_check. by rewrite Hrm, Hp. Qed.

Lemma join_first_open ws data now st R :
  d_type data = Some "join" → d_room data = Some R → R ≠ "" →
  cloakRooms st !! R = None → truthy (d_password data) = false →
  let ref := fresh (dom (rooms st)) in
  handleCloakLogic ws data now st
  = (join_admit ws data ref
       (set_cloakRooms (<[R := ref]>) (set_rooms (<[ref := Room [] None now]>) st)),
     None).
Proof.
  intros Ht Hr HR Href Hp. unfold handleCloakLogic, join.
  rewrite (is_str_intro _ _ Ht), Hr, (truthy_intro R HR); simpl.
  rewrite Href, Hp. unfold join_create. rewrite Hr. simpl.
  apply join_check_open with (rm := Room [] None now); [|done].
  simpl. apply lookup_insert_eq.
Qed.

(** An admitted join touches no room object but the one joined: the
    socket stays in the member set of any other room it is in. *)
Lemma join_admit_other_rooms ws data ref ref' st :
  ref' ≠ ref → rooms (join_admit ws data ref st).1 !! ref' = rooms st !! ref'.
Proof.
  intros Hne. unfold join_admit. destruct (sockets st !! ws); [|done].
  simpl. by rewrite lookup_alter_ne.
Qed.

(** A join by a socket that is already in the room's member set. *)
Lemma join_admit_member ws data ref st s rm :
  sockets st !! ws = Some s → rooms st !! ref = Some rm → ws ∈ clients rm →
  let res := join_admit ws data ref st in
  rooms res.1 = rooms st
  ∧ cloakRooms res.1 = cloakRooms st
  ∧ ∃ bcast, res.2 = Send ws (MJoined (str (d_room data)) (ws_id s)
                        (omap (peer_entry res.1) (filter (λ c, c ≠ ws) (clients rm))))
                     :: bcast.
Proof.
  intros Hs Hrm Hin.
  destruct (join_admit_spec ws data ref st s rm Hs Hrm) as (Hrooms & Hcloak & _ & Hacts).
  cbv zeta. rewrite Hrooms, Hcloak, Hacts.
  rewrite set_add_member, with_clients_same, insert_id by done. eauto.
Qed.

(** C10. A successful join of room R by a connection that is already in
    R's member set leaves the member set (indeed every room object and
    the room table) unchanged, and the [joined] reply lists the other
    members only: the entries of the member set filtered by [c !== ws].
    The same holds when the password check of that join completes later,
    in any state in which the connection is still a member. *)
Theorem C10_rejoin_leaves_member_set (st : state) (ws : nat) (s : socket)
    (data : payload) (R : string) (ref : nat) (rm : room) (salt : string) (now : Z)
    (Htype : d_type data = Some "join")
    (Hroom : d_room data = Some R)
    (HR : R ≠ "")
    (Hs : sockets st !! ws = Some s)
    (Href : cloakRooms st !! R = Some ref)
    (Hrm : rooms st !! ref = Some rm)
    (Hmember : ws ∈ clients rm)
    (Hpass : truthy (password rm) = true →
             truthy (d_password data) = true
             ∧ bcrypt_compare (str (d_password data)) (str (password rm)) = true) :
  let res := settle salt now (handleCloakLogic ws data now st) in
  let others := filter (λ c, c ≠ ws) (clients rm) in
  pending_of res = None
  ∧ rooms (state_of res) = rooms st
  ∧ cloakRooms (state_of res) = cloakRooms st
  ∧ (ws ∉ others)
  ∧ (∃ bcast, actions_of res
              = Send ws (MJoined R (ws_id s) (omap (peer_entry (state_of res)) others))
                :: bcast)
  ∧ (∀ st2 s2 rm2 digest salt2 now2,
       sockets st2 !! ws = Some s2 → rooms st2 !! ref = Some rm2 → ws ∈ clients rm2 →
       bcrypt_compare (str (d_password data)) digest = true →
       let res2 := resume (AwaitCompare ws data ref digest) salt2 now2 st2 in
       rooms (state_of res2) = rooms st2
       ∧ ∃ bcast, actions_of res2
                  = Send ws (MJoined R (ws_id s2)
                               (omap (peer_entry (state_of res2))
                                     (filter (λ c, c ≠ ws) (clients rm2))))
                    :: bcast).
Proof.
  intros res others.
  pose proof (join_admit_member ws data ref st s rm Hs Hrm Hmember) as Hadm.
  cbv zeta in Hadm. rewrite Hroom in Hadm. simpl in Hadm.
  destruct Hadm as (Hrooms & Hcloak & bcast & Hacts).
  assert (res = (join_admit ws data ref st, None)
          ∨ res = ((join_admit ws data ref st).1, [] ++ (join_admit ws data ref st).2, None))
    as Hres.
  { subst res. rewrite (join_existing ws data now st R ref Htype Hroom HR Href).
    unfold join_check. rewrite Hrm.
    destruct (truthy (password rm)) eqn:Ep; [|by left].
    destruct (Hpass eq_refl) as [Hpw Hcmp]. rewrite Hpw. simpl. right.
    unfold settle, pending_of, state_of, actions_of. simpl. by rewrite Hcmp. }
  split_and!.
  - by destruct Hres as [-> | ->].
  - by destruct Hres as [-> | ->].
  - by destruct Hres as [-> | ->].
  - subst others. rewrite list_elem_of_filter. by intros [? _].
  - exists bcast. by destruct Hres as [-> | ->].
  - intros st2 s2 rm2 digest salt2 now2 Hs2 Hrm2 Hin2 Hcmp. simpl. rewrite Hcmp. simpl.
    pose proof (join_admit_member ws data ref st2 s2 rm2 Hs2 Hrm2 Hin2) as Hadm2.
    cbv zeta in Hadm2. rewrite Hroom in Hadm2. simpl in Hadm2.
    destruct Hadm2 as (Hrooms2 & _ & bcast2 & Hacts2).
    unfold state_of, actions_of. simpl. eauto.
Qed.

(** ** A sequence of joins *)

Lemma omap_Forall2 {A B} (g : A → option B) (l : list A) :
  Forall (λ x, is_Some (g x)) l → Forall2 (λ x y, g x = Some y) l (omap g l).
Proof.
  induction 1 as [|x l [y Hy] _ IH]; simpl; [constructor|].
  rewrite Hy. by constructor.
Qed.

Lemma joins_open R ref : ∀ js st joined rm,
  R ≠ "" → cloakRooms st !! R = Some ref → rooms st !! ref = Some rm →
  truthy (password rm) = false →
  NoDup (clients rm) → (∀ c, c ∈ clients rm ↔ c ∈ joined) →
  (∀ c, c ∈ clients rm → is_Some (sockets st !! c)) →
  Forall (join_of R st) js →
  ∀ k ws data now res,
    js !! k = Some (ws, data, now) → joins js st !! k = Some res →
    joined_reply R ws (joined ++ (take k js).*1.*1) res.
Proof.
  intros js. induction js as [|[[ws0 data0] now0] js IH];
    intros st joined rm HR Href Hrm Hp Hnd Hmem Hdom Hall k ws data now res Hk Hres;
    [done|].
  apply Forall_cons in Hall as [(Ht0 & Hr0 & [s0 Hs0]) Hall]. simpl in Ht0, Hr0, Hs0.
  simpl in Hres.
  rewrite (join_existing ws0 data0 now0 st R ref Ht0 Hr0 HR Href) in Hres.
  rewrite (join_check_open ws0 data0 ref st rm Hrm Hp) in Hres.
  destruct (join_admit_spec ws0 data0 ref st s0 rm Hs0 Hrm)
    as (Hrooms & Hcloak & Hsock & Hacts).
  cbv zeta in Hrooms, Hcloak, Hsock, Hacts.
  set (st' := (join_admit ws0 data0 ref st).1) in *.
  assert (∀ c, is_Some (sockets st !! c) → is_Some (sockets st' !! c)) as Hgrow.
  { intros c Hc. rewrite Hsock. destruct (decide (c = ws0)) as [->|Hne].
    - rewrite lookup_insert_eq. eauto.
    - by rewrite lookup_insert_ne. }
  destruct k as [|k].
  - simpl in Hk, Hres. injection Hk as -> -> ->. injection Hres as <-.
    split; [done|].
    eexists (filter (λ c, c ≠ ws) (clients rm)),
            (with_alias (Some (or_else (d_alias data) "Cloaker"))
               (with_room (d_room data) s0)),
            (omap (peer_entry st') (filter (λ c, c ≠ ws) (clients rm))), _.
    unfold state_of, actions_of. simpl. fold st'. split_and!.
    + by rewrite Hsock, lookup_insert_eq.
    + rewrite Hacts, Hr0. done.
    + eapply Forall2_impl;
        [apply omap_Forall2, Forall_forall; intros c [_ Hc]%list_elem_of_filter;
         unfold peer_entry; destruct (Hgrow c (Hdom c Hc)) as [x ->]; eauto|].
      intros c p Hentry. unfold peer_entry in Hentry.
      destruct (sockets st' !! c) as [sc|]; [|done]. injection Hentry as <-. eauto.
    + by apply NoDup_filter.
    + intros c. rewrite list_elem_of_filter, app_nil_r, Hmem. tauto.
  - simpl in Hk, Hres. unfold state_of in Hres. simpl in Hres. fold st' in Hres.
    replace (joined ++ (take (S k) ((ws0, data0, now0) :: js)).*1.*1)
      with ((joined ++ [ws0]) ++ (take k js).*1.*1)
      by (simpl; by rewrite <- app_assoc).
    eapply (IH st' (joined ++ [ws0])
              (with_clients (set_add ws0 (clients rm)) rm)); try done.
    + by rewrite Hcloak.
    + rewrite Hrooms. apply lookup_insert_eq.
    + simpl. by apply set_add_NoDup.
    + intros c. simpl. rewrite set_add_elem, elem_of_app, list_elem_of_singleton, Hmem.
      tauto.
    + intros c [->|Hc]%set_add_elem; apply Hgrow; eauto.
    + eapply Forall_impl; [exact Hall|]. intros j (? & ? & ?). split_and!; auto.
Qed.

(** C6. Take any sequence of joins to a room that does not exist yet,
    the first of them without a password. Every one of them completes,
    and the [joined] reply of each joiner lists exactly the connections
    that joined strictly earlier, each once and each as the pair of its
    id and its alias, and never the joiner itself. *)
Theorem C6_joined_lists_earlier_members (st : state) (R : string)
    (js : list (nat * payload * Z))
    (HR : R ≠ "")
    (Hfresh : cloakRooms st !! R = None)
    (Hjoins : Forall (join_of R st) js)
    (Hopen : ∀ j, head js = Some j → truthy (d_password j.1.2) = false) :
  ∀ k ws data now res,
    js !! k = Some (ws, data, now) → joins js st !! k = Some res →
    joined_reply R ws ((take k js).*1.*1) res.
Proof.
  destruct js as [|[[ws0 data0] now0] js]; [done|].
  pose proof Hjoins as Hjoins'.
  apply Forall_cons in Hjoins' as [(Ht0 & Hr0 & Hs0) _]. simpl in Ht0, Hr0, Hs0.
  specialize (Hopen _ eq_refl). simpl in Hopen.
  set (ref := fresh (dom (rooms st))).
  set (st2 := set_cloakRooms (<[R := ref]>)
                (set_rooms (<[ref := Room [] None now0]>) st)).
  assert (cloakRooms st2 !! R = Some ref) as Href by apply lookup_insert_eq.
  assert (rooms st2 !! ref = Some (Room [] None now0)) as Hrm by apply lookup_insert_eq.
  assert (joins ((ws0, data0, now0) :: js) st = joins ((ws0, data0, now0) :: js) st2)
    as ->.
  { simpl. rewrite (join_first_open ws0 data0 now0 st R Ht0 Hr0 HR Hfresh Hopen).
    rewrite (join_existing ws0 data0 now0 st2 R ref Ht0 Hr0 HR Href).
    by rewrite (join_check_open ws0 data0 ref st2 _ Hrm). }
  intros k ws data now res Hk Hres.
  apply (joins_open R ref _ st2 [] (Room [] None now0) HR Href Hrm) with (now := now) (data := data);
    try done.
  - constructor.
  - intros c Hc. by apply not_elem_of_nil in Hc.
Qed.

(** ** Room objects keep their password *)

Lemma room_kept_refl ref st : room_kept ref st st.
Proof. intros rm Hrm. eauto. Qed.

Lemma room_kept_trans ref st1 st2 st3 :
  room_kept ref st1 st2 → room_kept ref st2 st3 → room_kept ref st1 st3.
Proof.
  intros H12 H23 rm Hrm. destruct (H12 rm Hrm) as (rm2 & Hrm2 & E2).
  destruct (H23 rm2 Hrm2) as (rm3 & Hrm3 & E3). exists rm3. split; [done|congruence].
Qed.

Lemma room_kept_same ref st st' : rooms st' = rooms st → room_kept ref st st'.
Proof. intros E rm Hrm. rewrite E. eauto. Qed.

Lemma room_kept_alter ref ref' g st :
  room_kept ref st
    (set_rooms (alter (λ r, with_clients (g (clients r)) r) ref') st).
Proof.
  intros rm Hrm. simpl. destruct (decide (ref' = ref)) as [->|Hne].
  - rewrite lookup_alter_eq, Hrm. simpl. eauto.
  - rewrite lookup_alter_ne by done. eauto.
Qed.

Lemma room_kept_join_admit ref ws data ref' st :
  room_kept ref st (join_admit ws data ref' st).1.
Proof.
  unfold join_admit. destruct (sockets st !! ws); [|apply room_kept_refl]. simpl.
  eapply room_kept_trans; [|apply (room_kept_alter ref ref' (set_add ws))].
  by apply room_kept_same.
Qed.

Lemma room_kept_join_check ref ws data ref' st :
  room_kept ref st (state_of (join_check ws data ref' st)).
Proof.
  unfold join_check. repeat case_match; try apply room_kept_refl.
  apply room_kept_join_admit.
Qed.

Lemma room_kept_join_create ref ws data h now st :
  room_kept ref st (state_of (join_create ws data h now st)).
Proof.
  unfold join_create. eapply room_kept_trans; [|apply room_kept_join_check].
  intros rm Hrm. exists rm. split; [|done]. simpl.
  rewrite lookup_insert_ne; [done|]. intros E.
  apply (is_fresh (dom (rooms st))). rewrite E. apply elem_of_dom. eauto.
Qed.

Lemma room_kept_handleCloakLogic ref ws data now st :
  room_kept ref st (state_of (handleCloakLogic ws data now st)).
Proof.
  unfold handleCloakLogic, join. repeat case_match; try apply room_kept_refl;
    auto using room_kept_join_create, room_kept_join_check.
Qed.

Lemma room_kept_resume ref k salt now st :
  room_kept ref st (state_of (resume k salt now st)).
Proof.
  destruct k; simpl; [apply room_kept_join_create|].
  case_match; [apply room_kept_refl|apply room_kept_join_admit].
Qed.

Lemma handleMessengerLogic_rooms ws data f st :
  rooms (handleMessengerLogic ws data f st).1 = rooms st.
Proof.
  unfold handleMessengerLogic. fold (with_namespace st).
  assert (rooms (with_namespace st) = rooms st) as E
    by (unfold with_namespace; by case_match).
  by repeat case_match.
Qed.

Lemma room_kept_leave_room ref ws s st : room_kept ref st (leave_room ws s st).1.
Proof.
  unfold leave_room. destruct (truthy (ws_room s)); [|apply room_kept_refl].
  destruct (cloakRooms st !! str (ws_room s)) as [ref'|]; [|apply room_kept_refl].
  cbn [fst]. eapply room_kept_trans; [apply (room_kept_alter ref ref' (set_delete ws))|].
  case_match; [by apply room_kept_same|apply room_kept_refl].
Qed.

Lemma room_kept_limpiarRecursos ref ws st : room_kept ref st (limpiarRecursos ws st).1.
Proof.
  destruct (sockets st !! ws) as [s|] eqn:Hs.
  - rewrite (limpiarRecursos_eq ws st s Hs). simpl.
    eapply room_kept_trans; [apply room_kept_leave_room|].
    apply room_kept_same, forget_peer_rooms.
  - unfold limpiarRecursos. rewrite Hs. apply room_kept_refl.
Qed.

Lemma sweep_rooms l st acts : rooms (foldl sweep_one (st, acts) l).1 = rooms st.
Proof.
  revert st acts. induction l as [|w l IH]; intros st acts; [done|].
  simpl. repeat case_match; by rewrite IH.
Qed.

Lemma room_kept_step ref e st : room_kept ref st (state_of (step e st)).
Proof.
  destruct e as [w ip id now|w now f|k salt now|w|w| |t w]; simpl;
    unfold state_of; simpl.
  - apply room_kept_same. unfold on_connection. by case_match.
  - unfold on_message. repeat case_match; simpl; try apply room_kept_refl;
      try (by apply room_kept_same).
    + eapply room_kept_trans; [|apply room_kept_handleCloakLogic]. by apply room_kept_same.
    + apply room_kept_same. by rewrite handleMessengerLogic_rooms.
  - apply room_kept_resume.
  - unfold on_close. case_match; [|by apply room_kept_same].
    eapply room_kept_trans; [|apply room_kept_limpiarRecursos].
    apply room_kept_same. by case_match.
  - by apply room_kept_same.
  - apply room_kept_same, sweep_rooms.
  - apply room_kept_same. unfold on_timeout. by case_match.
Qed.

Lemma room_kept_run ref es : ∀ st, room_kept ref st (run es st).1.
Proof.
  induction es as [|e es IH]; intros st; [apply room_kept_refl|].
  rewrite run_cons_state. eapply room_kept_trans; [apply room_kept_step|apply IH].
Qed.

Lemma join_check_cloakRooms ws data ref st :
  cloakRooms (state_of (join_check ws data ref st)) = cloakRooms st.
Proof.
  unfold join_check, join_admit, state_of. by repeat case_match.
Qed.

Lemma join_create_room ws data h now st R :
  d_room data = Some R →
  ∃ ref rm, cloakRooms (state_of (join_create ws data h now st)) !! R = Some ref
            ∧ rooms (state_of (join_create ws data h now st)) !! ref = Some rm
            ∧ password rm = h.
Proof.
  intros Hr. unfold join_create. rewrite Hr. simpl str.
  set (ref := fresh (dom (rooms st))).
  set (st2 := set_cloakRooms _ _).
  destruct (room_kept_join_check ref ws data ref st2 (Room [] h now))
    as (rm & Hrm & Hp); [apply lookup_insert_eq|].
  exists ref, rm. rewrite join_check_cloakRooms. split_and!; try done.
  apply lookup_insert_eq.
Qed.

(** ** Suspended handlers complete *)

Lemma settle_pending salt now r :
  pending_of (settle salt now r)
  = match pending_of r with
    | None => None
    | Some k => pending_of (resume k salt now (state_of r))
    end.
Proof. unfold settle. by destruct (pending_of r) eqn:E. Qed.

Lemma join_check_settles salt now ws data ref st :
  pending_of (settle salt now (join_check ws data ref st)) = None.
Proof.
  rewrite settle_pending. unfold join_check.
  repeat case_match; simplify_eq; try done.
  unfold pending_of in *. simpl in *. simplify_eq. simpl. by case_match.
Qed.

(** A join awaits at most twice: letting the promises of a message handler
    settle twice leaves nothing suspended. *)
Lemma on_message_settled_done salt ws now message st :
  pending_of (on_message_settled salt ws now message st) = None.
Proof.
  unfold on_message_settled. rewrite settle_pending.
  destruct (pending_of (settle salt now (on_message ws now message st))) as [k|] eqn:Ek;
    [|done].
  rewrite settle_pending in Ek.
  destruct (pending_of (on_message ws now message st)) as [k0|] eqn:Ek0; [|done].
  destruct k0 as [w data|w data ref digest].
  - simpl in Ek. unfold join_create in Ek.
    pose proof (join_check_settles salt now w data) as Hjc.
    unfold settle at 1. unfold pending_of at 1. simpl.
    rewrite Ek0. simpl. unfold join_create.
    set (r := join_check w data _ _) in *.
    specialize (Hjc _ _ : pending_of (settle salt now r) = None).
    rewrite settle_pending in Hjc. unfold state_of at 1. simpl.
    change (pending_of r = Some k) in Ek. by rewrite Ek in Hjc.
  - simpl in Ek. revert Ek. case_match; discriminate.
Qed.

(** C5. Let a room object carry the digest of a password, as set when a
    join with that password created it, and let anything happen
    afterwards (members joining and leaving included) such that the room
    id still names that object. Then a join without a password is
    answered, at once, with the error [Password required] sent to the
    caller only, and a join with a password that [bcrypt.compare] rejects
    is answered, whenever the comparison completes, with [Wrong password]
    sent to the caller only; neither changes anything in the state (no
    broadcast, no membership change). A join with the original password
    completes, puts the caller in the member set and answers [joined],
    whether its comparison completes at once or later. The last part shows
    how such a room comes about: a join with a password to a room id that
    is not in use stores the digest of that password in the new room. *)
Theorem C5_password_gate (st0 : state) (es : list event) (R : string) (ref : nat)
    (rm0 : room) (pw0 salt0 : string)
    (Hcompare : ∀ salt p, bcrypt_compare p (bcrypt_hash salt p) = true)
    (Hdigest : ∀ salt p, bcrypt_hash salt p ≠ "")
    (HR : R ≠ "")
    (Hpw0 : pw0 ≠ "")
    (Hrm0 : rooms st0 !! ref = Some rm0)
    (Hset : password rm0 = Some (bcrypt_hash salt0 pw0))
    (Hstill : cloakRooms (run es st0).1 !! R = Some ref) :
  let st := (run es st0).1 in
  let digest := bcrypt_hash salt0 pw0 in
  (∀ ws data now s,
     d_type data = Some "join" → d_room data = Some R → sockets st !! ws = Some s →
     (truthy (d_password data) = false →
        handleCloakLogic ws data now st
        = (st, [Send ws (MError "Password required")], None))
     ∧ (truthy (d_password data) = true →
        bcrypt_compare (str (d_password data)) digest = false →
        handleCloakLogic ws data now st = (st, [], Some (AwaitCompare ws data ref digest))
        ∧ ∀ st' salt now',
            resume (AwaitCompare ws data ref digest) salt now' st'
            = (st', [Send ws (MError "Wrong password")], None))
     ∧ (d_password data = Some pw0 →
        ∀ salt,
          let res := settle salt now (handleCloakLogic ws data now st) in
          pending_of res = None
          ∧ (∃ rm', rooms (state_of res) !! ref = Some rm'
                    ∧ ws ∈ clients rm' ∧ password rm' = Some digest)
          ∧ (∃ peers bcast,
               actions_of res = Send ws (MJoined R (ws_id s) peers) :: bcast))
     ∧ (d_password data = Some pw0 →
        ∀ st' s' rm' salt now',
          sockets st' !! ws = Some s' → rooms st' !! ref = Some rm' →
          let res := resume (AwaitCompare ws data ref digest) salt now' st' in
          pending_of res = None
          ∧ (∃ rm'', rooms (state_of res) !! ref = Some rm'' ∧ ws ∈ clients rm'')
          ∧ (∃ peers bcast,
               actions_of res = Send ws (MJoined R (ws_id s') peers) :: bcast)))
  ∧ (∀ stc wsc datac nowc saltc,
       d_room datac = Some R → d_password datac = Some pw0 →
       let stc' := state_of (resume (AwaitHash wsc datac) saltc nowc stc) in
       ∃ refc rmc, cloakRooms stc' !! R = Some refc ∧ rooms stc' !! refc = Some rmc
                   ∧ password rmc = Some (bcrypt_hash saltc pw0)).
Proof.
  intros st digest.
  destruct (room_kept_run ref es st0 rm0 Hrm0) as (rm & Hrm & Hpw).
  fold st in Hrm, Hstill. rewrite Hset in Hpw. fold digest in Hpw.
  assert (truthy (password rm) = true) as Htruthy
    by (rewrite Hpw; apply truthy_intro, Hdigest).
  split.
  - intros ws data now s Ht Hr Hs.
    rewrite (join_existing ws data now st R ref Ht Hr HR Hstill).
    unfold join_check. rewrite Hrm, Htruthy, Hpw. simpl str. split_and!.
    + by intros ->.
    + intros -> Hwrong. split; [done|]. intros st' salt now'. simpl.
      by rewrite Hwrong.
    + intros Hpass salt. rewrite Hpass, (truthy_intro pw0 Hpw0). simpl.
      unfold settle, pending_of, state_of, actions_of. simpl.
      rewrite Hpass. simpl. unfold digest. rewrite Hcompare. simpl.
      destruct (join_admit_spec ws data ref st s rm Hs Hrm)
        as (Hrooms & _ & _ & Hacts).
      cbv zeta in Hrooms, Hacts. split; [done|]. split.
      * eexists. rewrite Hrooms, lookup_insert_eq. split; [done|]. simpl.
        split; [apply set_add_elem; by left|done].
      * rewrite Hacts, Hr. simpl. eauto.
    + intros Hpass st' s' rm' salt now' Hs' Hrm'. simpl.
      rewrite Hpass. simpl. unfold digest. rewrite Hcompare. simpl.
      destruct (join_admit_spec ws data ref st' s' rm' Hs' Hrm')
        as (Hrooms & _ & _ & Hacts).
      cbv zeta in Hrooms, Hacts. unfold pending_of, state_of, actions_of. simpl.
      split; [done|]. split.
      * eexists. rewrite Hrooms, lookup_insert_eq. split; [done|]. simpl.
        apply set_add_elem; by left.
      * rewrite Hacts, Hr. simpl. eauto.
  - intros stc wsc datac nowc saltc Hr Hp stc'. subst stc'. simpl. rewrite Hp.
    apply join_create_room, Hr.
Qed.

(** ** Relaying in a room *)

Lemma broadcast_recipients roomId m sender targetId st ref rm :
  cloakRooms st !! roomId = Some ref → rooms st !! ref = Some rm →
  broadcastToRoom roomId m sender targetId st
  = (λ c, Send c m) <$> recipients st rm sender targetId.
Proof.
  intros Href Hrm. unfold broadcastToRoom, recipients. rewrite Href. simpl. rewrite Hrm.
  induction (clients rm) as [|c l IH]; [done|].
  simpl. rewrite IH. unfold is_open_at.
  destruct (sockets st !! c) as [s|] eqn:Hs; simpl.
  - destruct (decide (Some c ≠ sender)) as [Hne|Heq].
    + rewrite (bool_decide_eq_true_2 _ Hne). simpl.
      destruct (is_open s) eqn:Ho; simpl.
      * destruct (truthy targetId) eqn:Ht; simpl.
        -- destruct (decide (Some (ws_id s) = targetId)) as [Hid|Hid].
           ++ rewrite (bool_decide_eq_true_2 _ Hid). simpl.
              rewrite filter_cons_True; [done|]. by rewrite Hs, Ho.
           ++ rewrite (bool_decide_eq_false_2 _ Hid). simpl.
              rewrite filter_cons_False; [done|]. rewrite Hs. simpl.
              intros (_ & _ & H). by apply Hid, H.
        -- rewrite filter_cons_True; [done|]. rewrite Hs, Ho. split_and!; done.
      * rewrite filter_cons_False; [done|]. rewrite Hs, Ho. by intros (_ & ? & _).
    + rewrite (bool_decide_eq_false_2 _ Heq). simpl.
      rewrite filter_cons_False; [done|]. by intros (? & _).
  - rewrite filter_cons_False; [done|]. rewrite Hs. by intros (_ & ? & _).
Qed.

Lemma broadcast_no_room roomId m sender targetId st :
  cloakRooms st !! roomId = None → broadcastToRoom roomId m sender targetId st = [].
Proof. intros H. unfold broadcastToRoom. by rewrite H. Qed.

Lemma filter_ext_in {A} (P Q : A → Prop) `{∀ x, Decision (P x)} `{∀ x, Decision (Q x)}
    (l : list A) :
  (∀ x, x ∈ l → (P x ↔ Q x)) → filter P l = filter Q l.
Proof.
  induction l as [|x l IH]; intros Hiff; [done|].
  assert (filter P l = filter Q l) as E.
  { apply IH. intros y Hy. apply Hiff. by right. }
  destruct (decide (P x)) as [HP|HP].
  - rewrite !filter_cons_True; [by rewrite E|by apply Hiff; [left|]|done].
  - rewrite !filter_cons_False; [done| |done]. intros HQ. apply HP, Hiff; [left|done].
Qed.

Lemma set_delete_elem (x y : nat) (l : list nat) :
  y ∈ set_delete x l ↔ y ≠ x ∧ y ∈ l.
Proof. unfold set_delete. by rewrite list_elem_of_filter. Qed.

(** X1. [signal]: the payload, stamped with the sender's id, goes to the open
    members of the sender's room other than the sender, narrowed to the
    members whose id is the target id when one is given; nothing changes
    in the state. A socket that is in no room, or whose room is gone,
    relays nothing. *)
Theorem X1_signal_relay (st : state) (ws : nat) (s : socket) (data : payload) (now : Z)
    (Htype : d_type data = Some "signal")
    (Hs : sockets st !! ws = Some s) :
  (∀ R ref rm,
     ws_room s = Some R → R ≠ "" →
     cloakRooms st !! R = Some ref → rooms st !! ref = Some rm →
     let to := recipients st rm (Some ws) (d_targetPeerId data) in
     handleCloakLogic ws data now st
     = (st, (λ c, Send c (MSignal data (ws_id s))) <$> to, None)
     ∧ (∀ c, c ∈ to → c ≠ ws ∧ c ∈ clients rm ∧ is_open_at st c = true)
     ∧ (∀ c target, c ∈ to → d_targetPeerId data = Some target → target ≠ "" →
                    ws_id <$> sockets st !! c = Some target))
  ∧ (truthy (ws_room s) = false → handleCloakLogic ws data now st = (st, [], None))
  ∧ (cloakRooms st !! str (ws_room s) = None →
     handleCloakLogic ws data now st = (st, [], None)).
Proof.
  assert (is_str (d_type data) "join" = false) as Hnj.
  { rewrite Htype. unfold is_str. by apply bool_decide_eq_false. }
  split_and!.
  - intros R ref rm HR HRne Href Hrm to. split_and!.
    + unfold handleCloakLogic. rewrite Hnj, (is_str_intro _ _ Htype), Hs, HR.
      rewrite (truthy_intro R HRne). simpl.
      by rewrite (broadcast_recipients _ _ _ _ _ ref rm Href Hrm).
    + intros c [(Hne & Ho & _) Hin]%list_elem_of_filter.
      split_and!; [congruence|done|done].
    + intros c target [(_ & _ & Ht) _]%list_elem_of_filter Htarget Hne.
      rewrite Htarget in Ht. apply Ht. by apply truthy_intro.
  - intros Hr. unfold handleCloakLogic. by rewrite Hnj, (is_str_intro _ _ Htype), Hs, Hr.
  - intros Hr. unfold handleCloakLogic. rewrite Hnj, (is_str_intro _ _ Htype), Hs.
    case_match; [done|]. by rewrite broadcast_no_room.
Qed.

Lemma omap_ext_in {A B} (g h : A → option B) (l : list A) :
  (∀ x, x ∈ l → g x = h x) → omap g l = omap h l.
Proof.
  induction l as [|x l IH]; intros Heq; [done|].
  assert (omap g l = omap h l) as E by (apply IH; intros y Hy; apply Heq; by right).
  cbn. rewrite (Heq x) by left. destruct (h x); by rewrite E.
Qed.

(** X2. A join of a room that exists and has no password: the caller is tagged
    with the room and its alias (["Cloaker"] when it gives none), added to
    the member set, and told who was there; every open member that was
    there before is sent one [peer_joined] with the caller's id and alias,
    and the caller itself none. *)
Theorem X2_join_notifies_members (st : state) (ws : nat) (s : socket) (data : payload)
    (now : Z) (R : string) (ref : nat) (rm : room)
    (Htype : d_type data = Some "join")
    (Hroom : d_room data = Some R)
    (HR : R ≠ "")
    (Hs : sockets st !! ws = Some s)
    (Href : cloakRooms st !! R = Some ref)
    (Hrm : rooms st !! ref = Some rm)
    (Hopen : truthy (password rm) = false) :
  let aliasName := or_else (d_alias data) "Cloaker" in
  let before := filter (λ c, c ≠ ws) (clients rm) in
  let res := handleCloakLogic ws data now st in
  pending_of res = None
  ∧ sockets (state_of res) !! ws = Some (with_alias (Some aliasName) (with_room (Some R) s))
  ∧ rooms (state_of res) !! ref = Some (with_clients (set_add ws (clients rm)) rm)
  ∧ actions_of res
    = Send ws (MJoined R (ws_id s) (omap (peer_entry st) before))
      :: ((λ c, Send c (MPeerJoined (ws_id s) aliasName))
            <$> filter (λ c, is_open_at st c = true) before).
Proof.
  intros aliasName before res. subst res.
  rewrite (join_existing ws data now st R ref Htype Hroom HR Href).
  rewrite (join_check_open ws data ref st rm Hrm Hopen).
  destruct (join_admit_spec ws data ref st s rm Hs Hrm) as (Hrooms & Hcloak & Hsock & Hacts).
  cbv zeta in Hrooms, Hcloak, Hsock, Hacts.
  unfold pending_of, state_of, actions_of. simpl.
  set (st' := (join_admit ws data ref st).1) in *.
  assert (∀ c, c ≠ ws → sockets st' !! c = sockets st !! c) as Hother.
  { intros c Hne. rewrite Hsock. by rewrite lookup_insert_ne. }
  split_and!; try done.
  - by rewrite Hsock, lookup_insert_eq, Hroom.
  - by rewrite Hrooms, lookup_insert_eq.
  - rewrite Hacts, Hroom. simpl str.
    assert (omap (peer_entry st') (filter (λ c, c ≠ ws) (clients rm))
            = omap (peer_entry st) before) as ->.
    { apply omap_ext_in. intros c [Hne _]%list_elem_of_filter.
      unfold peer_entry. by rewrite Hother. }
    f_equal.
    + rewrite (broadcast_recipients R _ (Some ws) None st' ref
                 (with_clients (set_add ws (clients rm)) rm)).
      * f_equal. unfold recipients. simpl. subst before.
        rewrite list_filter_filter.
        transitivity (filter (λ c, is_open_at st c = true ∧ c ≠ ws)
                        (set_add ws (clients rm))).
        -- apply filter_ext_in. intros c _. unfold is_open_at. split.
           ++ intros (Hne & Ho & _). assert (c ≠ ws) as Hne' by congruence.
              by rewrite <- Hother.
           ++ intros [Ho Hne]. rewrite Hother by done. split_and!; [congruence|done|done].
        -- unfold set_add. case_bool_decide; [done|].
           rewrite filter_app, filter_cons_False, filter_nil, app_nil_r; [done|].
           by intros [_ ?].
      * by rewrite Hcloak.
      * by rewrite Hrooms, lookup_insert_eq.
Qed.

(** The state in which the [close] handler calls [limpiarRecursos]. *)
Lemma on_close_eq ws st s :
  sockets st !! ws = Some s →
  ∃ st2, on_close ws st = limpiarRecursos ws st2
         ∧ sockets st2 = <[ws := with_readyState CLOSED s]> (sockets st)
         ∧ rooms st2 = rooms st ∧ cloakRooms st2 = cloakRooms st
         ∧ appClients st2 = appClients st ∧ pendingMatches st2 = pendingMatches st.
Proof.
  intros Hs. unfold on_close. simpl. rewrite Hs.
  eexists. split; [reflexivity|].
  assert (alter (with_readyState CLOSED) ws (sockets st)
          = <[ws := with_readyState CLOSED s]> (sockets st)) as E.
  { apply map_eq. intros i. destruct (decide (i = ws)) as [->|Hne].
    - by rewrite lookup_alter_eq, lookup_insert_eq, Hs.
    - by rewrite lookup_alter_ne, lookup_insert_ne. }
  case_match; simpl; by rewrite E.
Qed.

(** What the [close] handler does to the room of a member. *)
Lemma on_close_member (st : state) (ws : nat) (s : socket) (R : string)
    (ref : nat) (rm : room)
    (Hs : sockets st !! ws = Some s)
    (Hroom : ws_room s = Some R)
    (HR : R ≠ "")
    (Href : cloakRooms st !! R = Some ref)
    (Hrm : rooms st !! ref = Some rm) :
  let res := on_close ws st in
  let remaining := set_delete ws (clients rm) in
  res.2 = (λ c, Send c (MPeerLeft (ws_id s)))
            <$> filter (λ c, is_open_at st c = true) remaining
  ∧ rooms res.1 !! ref = Some (with_clients remaining rm)
  ∧ cloakRooms res.1 !! R = (if decide (remaining = []) then None else Some ref)
  ∧ (∀ m, Send ws m ∉ res.2)
  ∧ (NoDup (clients rm) → NoDup res.2).
Proof.
  intros res remaining. subst res.
  destruct (on_close_eq ws st s Hs) as (st2 & -> & Hsock & Hrooms & Hcloak & _ & _).
  assert (sockets st2 !! ws = Some (with_readyState CLOSED s)) as Hs2
    by (rewrite Hsock; apply lookup_insert_eq).
  rewrite (limpiarRecursos_eq ws st2 _ Hs2). cbn [fst snd].
  rewrite forget_peer_rooms, forget_peer_cloakRooms.
  unfold leave_room.
  change (ws_room (with_readyState CLOSED s)) with (ws_room s).
  change (ws_id (with_readyState CLOSED s)) with (ws_id s).
  rewrite Hroom, (truthy_intro R HR). simpl str. rewrite Hcloak, Href.
  set (st' := set_rooms _ st2).
  assert (rooms st' !! ref = Some (with_clients remaining rm)) as Hrm'.
  { subst st'. simpl. by rewrite Hrooms, lookup_alter_eq, Hrm. }
  rewrite Hrm'. cbn [fst snd].
  assert (broadcastToRoom R (MPeerLeft (ws_id s)) None None st'
          = (λ c, Send c (MPeerLeft (ws_id s)))
              <$> filter (λ c, is_open_at st c = true) remaining) as Hb.
  { rewrite (broadcast_recipients R _ None None st' ref (with_clients remaining rm));
      [|by subst st'; simpl; rewrite Hcloak|done].
    f_equal. unfold recipients. simpl. apply filter_ext_in.
    intros c [Hne _]%set_delete_elem. unfold is_open_at. subst st'. simpl.
    rewrite Hsock, lookup_insert_ne by done. split; [by intros (_ & ? & _)|done]. }
  rewrite Hb. split_and!.
  - done.
  - by case_match.
  - simpl clients. destruct (decide (remaining = [])) as [E|E].
    + rewrite bool_decide_eq_true_2 by (by rewrite E). simpl. by rewrite lookup_delete_eq.
    + rewrite bool_decide_eq_false_2; [by subst st'; simpl; rewrite Hcloak|].
      by destruct remaining.
  - intros m (c & [= <- _] & [_ [Hne _]%set_delete_elem]%list_elem_of_filter)%list_elem_of_fmap.
    done.
  - intros Hnd. apply NoDup_fmap_2; [by intros c1 c2 [= ->]|].
    apply NoDup_filter. unfold remaining, set_delete. by apply NoDup_filter.
Qed.

(** X3. The close of a room member: the socket leaves the member set of
    the room its [room] field names, every remaining open member is sent
    one [peer_left] with its id (no member twice), the departed socket is
    sent nothing, and the room is deleted from the table exactly when no
    member is left. *)
Theorem X3_close_notifies_members (st : state) (ws : nat) (s : socket) (R : string)
    (ref : nat) (rm : room)
    (Hs : sockets st !! ws = Some s)
    (Hroom : ws_room s = Some R)
    (HR : R ≠ "")
    (Href : cloakRooms st !! R = Some ref)
    (Hrm : rooms st !! ref = Some rm) :
  let res := on_close ws st in
  let remaining := set_delete ws (clients rm) in
  res.2 = (λ c, Send c (MPeerLeft (ws_id s)))
            <$> filter (λ c, is_open_at st c = true) remaining
  ∧ rooms res.1 !! ref = Some (with_clients remaining rm)
  ∧ cloakRooms res.1 !! R = (if decide (remaining = []) then None else Some ref)
  ∧ (∀ m, Send ws m ∉ res.2)
  ∧ (NoDup (clients rm) → NoDup res.2).
Proof. exact (on_close_member st ws s R ref rm Hs Hroom HR Href Hrm). Qed.

(** X4. When the last member of a room leaves, the room id is free again: a
    later join of that id is a first join. Without a password it creates an
    open room holding the caller alone, whatever password the old room had;
    with a password it does not consult the old digest but starts hashing
    the new password, which becomes the password of the new room. *)
Theorem X4_last_member_frees_room_id (st : state) (ws w : nat) (s sw : socket)
    (R : string) (ref : nat) (rm : room) (data : payload) (now : Z)
    (Hs : sockets st !! ws = Some s)
    (Hroom : ws_room s = Some R)
    (HR : R ≠ "")
    (Href : cloakRooms st !! R = Some ref)
    (Hrm : rooms st !! ref = Some rm)
    (Honly : set_delete ws (clients rm) = [])
    (Hw : sockets st !! w = Some sw)
    (Hne : w ≠ ws)
    (Htype : d_type data = Some "join")
    (Hdroom : d_room data = Some R) :
  let st1 := (on_close ws st).1 in
  cloakRooms st1 !! R = None
  ∧ (truthy (d_password data) = false →
     let res := handleCloakLogic w data now st1 in
     pending_of res = None
     ∧ actions_of res = [Send w (MJoined R (ws_id sw) [])]
     ∧ ∃ ref', ref' ≠ ref ∧ cloakRooms (state_of res) !! R = Some ref'
               ∧ rooms (state_of res) !! ref' = Some (Room [w] None now))
  ∧ (truthy (d_password data) = true →
     handleCloakLogic w data now st1 = (st1, [], Some (AwaitHash w data))
     ∧ ∀ salt now',
         ∃ ref' rm', cloakRooms (state_of (resume (AwaitHash w data) salt now' st1)) !! R
                     = Some ref'
                     ∧ rooms (state_of (resume (AwaitHash w data) salt now' st1)) !! ref'
                       = Some rm'
                     ∧ password rm' = Some (bcrypt_hash salt (str (d_password data)))).
Proof.
  intros st1.
  destruct (on_close_member st ws s R ref rm Hs Hroom HR Href Hrm)
    as (_ & Hrm1 & Hgone & _). cbv zeta in Hrm1, Hgone. fold st1 in Hrm1, Hgone.
  rewrite Honly in Hgone, Hrm1. simpl in Hgone.
  assert (sockets st1 !! w = Some sw) as Hw1.
  { destruct (on_close_eq ws st s Hs) as (st2 & E & Hsock & _).
    subst st1. rewrite E, limpiarRecursos_sockets, Hsock. by rewrite lookup_insert_ne. }
  split_and!; [done| |].
  - intros Hnopw res. subst res.
    rewrite (join_first_open w data now st1 R Htype Hdroom HR Hgone Hnopw).
    set (ref' := fresh (dom (rooms st1))).
    set (st2 := set_cloakRooms _ _).
    assert (rooms st2 !! ref' = Some (Room [] None now)) as Hrm2 by apply lookup_insert_eq.
    assert (sockets st2 !! w = Some sw) as Hw2 by done.
    destruct (join_admit_spec w data ref' st2 sw _ Hw2 Hrm2)
      as (Hrooms & Hcloak & _ & Hacts).
    cbv zeta in Hrooms, Hcloak, Hacts.
    unfold pending_of, actions_of, state_of. simpl. split_and!; [done| |].
    + rewrite Hacts, Hdroom. simpl. f_equal.
      rewrite (broadcast_recipients R _ (Some w) None _ ref' (Room [w] None now)).
      * unfold recipients. simpl. rewrite filter_cons_False; [done|]. by intros [? _].
      * rewrite Hcloak. apply lookup_insert_eq.
      * rewrite Hrooms. apply lookup_insert_eq.
    + exists ref'. split_and!.
      * intros E. apply (is_fresh (dom (rooms st1))). fold ref'. rewrite E.
        apply elem_of_dom. eauto.
      * rewrite Hcloak. apply lookup_insert_eq.
      * rewrite Hrooms. apply lookup_insert_eq.
  - intros Hpw. split.
    + unfold handleCloakLogic, join.
      by rewrite (is_str_intro _ _ Htype), Hdroom, (truthy_intro R HR); simpl;
        rewrite Hgone, Hpw.
    + intros salt now'. simpl. by apply join_create_room.
Qed.

(** ** The directory *)

Lemma forwarded_kind_dispatch data :
  forwarded_kind data →
  is_str (d_type data) "register" = false
  ∧ is_str (d_type data) "find_peer" = false
  ∧ is_str (d_type data) "offer" || is_str (d_type data) "answer"
    || is_str (d_type data) "candidate" = true.
Proof.
  unfold is_str. intros [H|[H|H]]; rewrite H; split_and!;
    try (by apply bool_decide_eq_false); by vm_compute.
Qed.

(** X5. [offer], [answer], [candidate]: when the target id is in the directory
    and its socket is open, the parsed frame goes to that socket, once,
    stamped with the peer id the sender last registered (none if it never
    did); when the id is unknown, or its socket is not open, nothing is
    sent, not even an error to the sender. Nothing but the creation of the
    namespace map changes in the state. *)
Theorem X5_forward_to_registered_peer (st : state) (w : nat) (data fd : payload)
    (f : frame) (P : string)
    (Hkind : forwarded_kind data)
    (Htarget : d_targetPeerId data = Some P)
    (HP : P ≠ "")
    (Hjson : f_json f = Some fd) :
  (handleMessengerLogic w data f st).1 = with_namespace st
  ∧ (∀ t st_t sw,
       directory st !! P = Some t → sockets st !! t = Some st_t → is_open st_t = true →
       sockets st !! w = Some sw →
       (handleMessengerLogic w data f st).2 = [Send t (MForward fd (ws_peerId sw))])
  ∧ (directory st !! P = None → (handleMessengerLogic w data f st).2 = [])
  ∧ (∀ t st_t,
       directory st !! P = Some t → sockets st !! t = Some st_t → is_open st_t = false →
       (handleMessengerLogic w data f st).2 = []).
Proof.
  destruct (forwarded_kind_dispatch data Hkind) as (Hr & Hf & Ho).
  unfold handleMessengerLogic. fold (with_namespace st).
  rewrite Hr, Hf, Ho, Htarget, (truthy_intro P HP). simpl str.
  rewrite with_namespace_directory, with_namespace_sockets, Hjson. split_and!.
  - by case_match.
  - intros t st_t sw -> Ht Hopen Hw. simpl. by rewrite Ht, Hw, Hopen.
  - by intros ->.
  - intros t st_t -> Ht Hshut. simpl. rewrite Ht. destruct (sockets st !! w); [|done].
    by rewrite Hshut.
Qed.

(** What [register(P)] does to the directory and to the sockets, whether
    or not a match is pending. *)
Lemma register_effect st t reg f P :
  d_type reg = Some "register" → d_peerId reg = Some P → P ≠ "" →
  directory (handleMessengerLogic t reg f st).1 = <[P := t]> (directory st)
  ∧ sockets (handleMessengerLogic t reg f st).1
    = alter (with_peerId (Some P)) t (sockets st)
  ∧ is_Some (appClients (handleMessengerLogic t reg f st).1 !! messenger)
  ∧ pendingMatches (handleMessengerLogic t reg f st).1 = delete P (pendingMatches st).
Proof.
  intros Ht Hp HP. unfold handleMessengerLogic. fold (with_namespace st).
  rewrite (is_str_intro _ _ Ht), Hp, (truthy_intro P HP). simpl str.
  pose proof (directory_register (with_namespace st) P t (with_namespace_is_Some st)) as Hd.
  rewrite with_namespace_directory in Hd.
  assert (is_Some (appClients (set_appClients (alter <[P:=t]> messenger)
                                 (with_namespace st)) !! messenger)) as Hns.
  { destruct (with_namespace_is_Some st) as [d Hd']. simpl.
    rewrite lookup_alter_eq, Hd'. simpl. eauto. }
  case_match eqn:Hpend; simpl in *; unfold directory in *; simpl in *;
    rewrite with_namespace_sockets; rewrite with_namespace_pendingMatches in *;
    split_and!; try done.
  by rewrite delete_id.
Qed.

(** X6. Registering and then being looked up. After [register(P)] by an open
    socket, a signaling message for [P] reaches that socket and a
    [find_peer(P)] is answered at once, leaving no pending match and arming
    no timer; once that socket has closed, the id is unknown again and a
    [find_peer(P)] is deferred. *)
Theorem X6_register_then_lookup (st : state) (t w : nat) (s_t sw : socket)
    (reg data find fd : payload) (f0 f f' : frame) (P : string)
    (Hreg : d_type reg = Some "register")
    (Hpid : d_peerId reg = Some P)
    (HP : P ≠ "")
    (Ht : sockets st !! t = Some s_t)
    (Hopen : is_open s_t = true)
    (Hw : sockets st !! w = Some sw)
    (Hne : w ≠ t)
    (Hkind : forwarded_kind data)
    (Htarget : d_targetPeerId data = Some P)
    (Hjson : f_json f = Some fd)
    (Hfind : d_type find = Some "find_peer")
    (Hftarget : d_targetPeerId find = Some P) :
  let st1 := (handleMessengerLogic t reg f0 st).1 in
  let st2 := (on_close t st1).1 in
  (handleMessengerLogic w data f st1).2 = [Send t (MForward fd (ws_peerId sw))]
  ∧ (handleMessengerLogic w find f' st1).2 = [Send w (MPeerFound (Some P))]
  ∧ pendingMatches (handleMessengerLogic w find f' st1).1 = pendingMatches st1
  ∧ (handleMessengerLogic w data f st2).2 = []
  ∧ (handleMessengerLogic w find f' st2).2 = [SetTimeout P w 300000]
  ∧ pendingMatches (handleMessengerLogic w find f' st2).1 !! P = Some w.
Proof.
  intros st1 st2.
  destruct (register_effect st t reg f0 P Hreg Hpid HP) as (Hdir & Hsock & Hns & _).
  fold st1 in Hdir, Hsock, Hns.
  assert (sockets st1 !! t = Some (with_peerId (Some P) s_t)) as Ht1
    by (by rewrite Hsock, lookup_alter_eq, Ht).
  assert (sockets st1 !! w = Some sw) as Hw1
    by (rewrite Hsock, lookup_alter_ne by (by intros ->); done).
  assert (directory st1 !! P = Some t) as HP1 by (rewrite Hdir; apply lookup_insert_eq).
  assert (directory st2 !! P = None) as HP2
    by (by apply (on_close_directory t st1 _ P Ht1)).
  destruct (forwarded_kind_dispatch data Hkind) as (Hr & Hf & Ho).
  assert (is_str (d_type find) "register" = false) as Hfr.
  { rewrite Hfind. unfold is_str. by apply bool_decide_eq_false. }
  split_and!.
  - unfold handleMessengerLogic. fold (with_namespace st1).
    rewrite Hr, Hf, Ho, Htarget, (truthy_intro P HP). simpl str.
    rewrite with_namespace_directory, with_namespace_sockets, Hjson, HP1. simpl.
    rewrite Ht1, Hw1. change (is_open (with_peerId (Some P) s_t)) with (is_open s_t).
    by rewrite Hopen.
  - unfold handleMessengerLogic. fold (with_namespace st1).
    rewrite Hfr, (is_str_intro _ _ Hfind), Hftarget, (truthy_intro P HP). simpl str.
    rewrite with_namespace_directory, HP1. by rewrite bool_decide_eq_true_2 by eauto.
  - unfold handleMessengerLogic. fold (with_namespace st1).
    rewrite Hfr, (is_str_intro _ _ Hfind), Hftarget, (truthy_intro P HP). simpl str.
    rewrite with_namespace_directory, HP1. rewrite bool_decide_eq_true_2 by eauto.
    simpl. apply with_namespace_pendingMatches.
  - unfold handleMessengerLogic. fold (with_namespace st2).
    rewrite Hr, Hf, Ho, Htarget, (truthy_intro P HP). simpl str.
    by rewrite with_namespace_directory, HP2.
  - by rewrite (find_peer_defers st2 w P find f' Hfind Hftarget HP HP2).
  - rewrite (find_peer_defers st2 w P find f' Hfind Hftarget HP HP2). simpl.
    apply lookup_insert_eq.
Qed.

(** X7. The expiry timer of a pending match deletes the match only while it
    still points at the requester that armed it, and touches nothing else;
    a [register] that arrives after the expiry is only acknowledged: the
    requester is not notified. A timer whose match was resolved or
    replaced in the meantime changes nothing. *)
Theorem X7_expiry_of_pending_match (st : state) (X : string) (r w : nat)
    (reg : payload) (f : frame)
    (Hreg : d_type reg = Some "register")
    (Hpid : d_peerId reg = Some X)
    (HX : X ≠ "") :
  (pendingMatches st !! X = Some r →
     pendingMatches (on_timeout X r st) = delete X (pendingMatches st)
     ∧ (handleMessengerLogic w reg f (on_timeout X r st)).2 = [Send w (MRegistered X)])
  ∧ (pendingMatches st !! X ≠ Some r → on_timeout X r st = st)
  ∧ sockets (on_timeout X r st) = sockets st
  ∧ appClients (on_timeout X r st) = appClients st
  ∧ cloakRooms (on_timeout X r st) = cloakRooms st.
Proof.
  unfold on_timeout. split_and!.
  - intros Hp. rewrite bool_decide_eq_true_2 by done. split; [done|].
    apply register_plain; try done. simpl. apply lookup_delete_eq.
  - intros Hp. by rewrite bool_decide_eq_false_2.
  - by case_match.
  - by case_match.
  - by case_match.
Qed.

(** X8. A [register(X)] that finds a pending match whose requester is no
    longer open: the match is deleted all the same, the registering peer
    gets its acknowledgement and nothing else, and the requester gets
    nothing. *)
Theorem X8_register_with_departed_requester (st : state) (X : string) (r w : nat)
    (sr : socket) (reg : payload) (f : frame)
    (Hreg : d_type reg = Some "register")
    (Hpid : d_peerId reg = Some X)
    (HX : X ≠ "")
    (Hpend : pendingMatches st !! X = Some r)
    (Hr : sockets st !! r = Some sr)
    (Hshut : is_open sr = false) :
  (handleMessengerLogic w reg f st).2 = [Send w (MRegistered X)]
  ∧ pendingMatches (handleMessengerLogic w reg f st).1 !! X = None
  ∧ directory (handleMessengerLogic w reg f st).1 !! X = Some w.
Proof.
  destruct (register_effect st w reg f X Hreg Hpid HX) as (Hdir & _ & _ & Hpm).
  rewrite Hdir, Hpm, lookup_delete_eq, lookup_insert_eq. split_and!; try done.
  unfold handleMessengerLogic. fold (with_namespace st).
  rewrite (is_str_intro _ _ Hreg), Hpid, (truthy_intro X HX). simpl.
  rewrite with_namespace_pendingMatches, Hpend, with_namespace_sockets. simpl.
  destruct (decide (w = r)) as [->|Hne].
  - rewrite lookup_alter_eq, Hr. simpl.
    change (is_open (with_peerId (Some X) sr)) with (is_open sr). by rewrite Hshut.
  - rewrite lookup_alter_ne, Hr by done. by rewrite Hshut.
Qed.

(** The sockets and the directory after the close of a socket tagged with
    a peer id. *)
Lemma on_close_sockets_directory ws st s :
  sockets st !! ws = Some s →
  sockets (on_close ws st).1 = <[ws := with_readyState CLOSED s]> (sockets st)
  ∧ (truthy (ws_peerId s) = true → is_Some (appClients st !! messenger) →
     directory (on_close ws st).1 = delete (str (ws_peerId s)) (directory st)).
Proof.
  intros Hs. unfold on_close. simpl. rewrite Hs.
  set (st2 := if js_le0 _ then _ else _).
  assert (sockets st2 = <[ws := with_readyState CLOSED s]> (sockets st)
          ∧ appClients st2 = appClients st) as (H2 & Happ).
  { assert (alter (with_readyState CLOSED) ws (sockets st)
            = <[ws := with_readyState CLOSED s]> (sockets st)) as E.
    { apply map_eq. intros i. destruct (decide (i = ws)) as [->|Hne].
      - by rewrite lookup_alter_eq, lookup_insert_eq, Hs.
      - by rewrite lookup_alter_ne, lookup_insert_ne. }
    subst st2. case_match; simpl; by rewrite E. }
  split; [by rewrite limpiarRecursos_sockets|].
  intros Htr [d Hd].
  assert (sockets st2 !! ws = Some (with_readyState CLOSED s)) as Hs2
    by (rewrite H2; apply lookup_insert_eq).
  rewrite (limpiarRecursos_eq ws st2 _ Hs2). unfold forget_peer. cbn [fst].
  rewrite leave_room_appClients, Happ.
  change (ws_peerId (with_readyState CLOSED s)) with (ws_peerId s).
  rewrite Htr, bool_decide_eq_true_2 by eauto.
  unfold directory. simpl. rewrite leave_room_appClients, Happ.
  by rewrite lookup_alter_eq, Hd.
Qed.

(** X9. Only the entry under the id registered last goes away with a socket.
    A socket that registers [P] and then [Q] keeps both entries; its close
    deletes the entry of [Q] and leaves the entry of [P] pointing at the
    closed socket, so that a [find_peer(P)] is still answered with
    [peer_found] while a signaling message for [P] is dropped. *)
Theorem X9_reregistration_leaves_old_entry (st : state) (t w : nat) (s_t sw : socket)
    (regP regQ find data fd : payload) (f0 f1 f f' : frame) (P Q : string)
    (HregP : d_type regP = Some "register") (HpidP : d_peerId regP = Some P)
    (HregQ : d_type regQ = Some "register") (HpidQ : d_peerId regQ = Some Q)
    (HP : P ≠ "") (HQ : Q ≠ "") (HPQ : P ≠ Q)
    (Ht : sockets st !! t = Some s_t)
    (Hw : sockets st !! w = Some sw)
    (Hne : w ≠ t)
    (Hfind : d_type find = Some "find_peer")
    (Hftarget : d_targetPeerId find = Some P)
    (Hkind : forwarded_kind data)
    (Htarget : d_targetPeerId data = Some P)
    (Hjson : f_json f = Some fd) :
  let st1 := (handleMessengerLogic t regQ f1 (handleMessengerLogic t regP f0 st).1).1 in
  let st2 := (on_close t st1).1 in
  directory st1 !! P = Some t ∧ directory st1 !! Q = Some t
  ∧ directory st2 !! Q = None ∧ directory st2 !! P = Some t
  ∧ (handleMessengerLogic w find f' st2).2 = [Send w (MPeerFound (Some P))]
  ∧ (handleMessengerLogic w data f st2).2 = [].
Proof.
  intros st1 st2.
  destruct (register_effect st t regP f0 P HregP HpidP HP) as (Hdir0 & Hsock0 & _ & _).
  set (st0 := (handleMessengerLogic t regP f0 st).1) in *.
  destruct (register_effect st0 t regQ f1 Q HregQ HpidQ HQ) as (Hdir1 & Hsock1 & Hns1 & _).
  fold st1 in Hdir1, Hsock1, Hns1.
  assert (sockets st1 !! t = Some (with_peerId (Some Q) (with_peerId (Some P) s_t))) as Ht1.
  { by rewrite Hsock1, lookup_alter_eq, Hsock0, lookup_alter_eq, Ht. }
  assert (directory st1 !! P = Some t) as HP1.
  { rewrite Hdir1, lookup_insert_ne by done. rewrite Hdir0. apply lookup_insert_eq. }
  assert (directory st1 !! Q = Some t) as HQ1 by (rewrite Hdir1; apply lookup_insert_eq).
  assert (directory st2 !! Q = None) as HQ2 by (by apply (on_close_directory t st1 _ Q Ht1)).
  destruct (on_close_sockets_directory t st1 _ Ht1) as (Hsock2 & Hdir2).
  specialize (Hdir2 (truthy_intro Q HQ) Hns1). fold st2 in Hsock2, Hdir2.
  assert (directory st2 !! P = Some t) as HP2.
  { rewrite Hdir2. simpl. by rewrite lookup_delete_ne. }
  assert (is_str (d_type find) "register" = false) as Hfr.
  { rewrite Hfind. unfold is_str. by apply bool_decide_eq_false. }
  destruct (forwarded_kind_dispatch data Hkind) as (Hr & Hf & Ho).
  split_and!; try done.
  - unfold handleMessengerLogic. fold (with_namespace st2).
    rewrite Hfr, (is_str_intro _ _ Hfind), Hftarget, (truthy_intro P HP). simpl str.
    rewrite with_namespace_directory, HP2. by rewrite bool_decide_eq_true_2 by eauto.
  - unfold handleMessengerLogic. fold (with_namespace st2).
    rewrite Hr, Hf, Ho, Htarget, (truthy_intro P HP). simpl str.
    rewrite with_namespace_directory, with_namespace_sockets, Hjson, HP2. simpl.
    rewrite Hsock2, lookup_insert_eq. by case_match.
Qed.

(** ** The head of the message handler, the liveness sweep *)

(** X10. The checks at the head of the message handler. A frame over the rate
    limit is answered with [close(1011)], a frame of more than 64 KiB with
    [close(1009)] (the rate limit is checked first); a frame that does not
    parse, or that names no known application, is dropped without an
    answer. In all four cases the frame is not routed: nothing is sent, no
    handler is left suspended, and the process-wide maps are untouched;
    only the sender's window, and its ready state when it is closed,
    change. *)
Theorem X10_frame_gate (st : state) (ws : nat) (s : socket) (now : Z) (f : frame)
    (Hs : sockets st !! ws = Some s) :
  let r := on_message ws now f st in
  (over_limit now s = true →
     r = (set_sockets (<[ws := closing (rate_limit now s)]>) st, [Close ws 1011], None))
  ∧ (over_limit now s = false → (MAX_MESSAGE_SIZE < f_length f)%Z →
     r = (set_sockets (<[ws := closing (rate_limit now s)]>) st, [Close ws 1009], None))
  ∧ (over_limit now s = false → (f_length f ≤ MAX_MESSAGE_SIZE)%Z →
     f_json f = None ∨
     (∃ data, f_json f = Some data ∧ d_appType data ≠ Some "cloaks"
              ∧ d_appType data ≠ Some "cudi-sync"
              ∧ d_appType data ≠ Some "cudi-messenger") →
     r = (set_sockets (<[ws := rate_limit now s]>) st, [], None)).
Proof.
  intros r. subst r. unfold on_message, over_limit. rewrite Hs.
  assert (∀ s0, upd_socket ws closing (set_sockets <[ws:=s0]> st)
                = set_sockets (<[ws := closing s0]>) st) as Hupd.
  { intros s0. unfold upd_socket, set_sockets. simpl. f_equal.
    apply map_eq. intros i. destruct (decide (i = ws)) as [->|Hne].
    - by rewrite lookup_alter_eq, !lookup_insert_eq.
    - by rewrite lookup_alter_ne, !lookup_insert_ne. }
  split_and!.
  - intros ->. by rewrite Hupd.
  - intros -> Hbig. rewrite (proj2 (Z.ltb_lt _ _) Hbig). by rewrite Hupd.
  - intros -> Hsmall Hdrop. rewrite (proj2 (Z.ltb_ge _ _) Hsmall).
    destruct Hdrop as [->|(data & -> & H1 & H2 & H3)]; [done|].
    unfold is_str. by rewrite !bool_decide_eq_false_2.
Qed.

Lemma sweep_spec l : ∀ st acts,
  NoDup l →
  (foldl sweep_one (st, acts) l).2 = acts ++ (probe st <$> l)
  ∧ (∀ w, w ∉ l → sockets (foldl sweep_one (st, acts) l).1 !! w = sockets st !! w)
  ∧ (∀ w s, w ∈ l → sockets st !! w = Some s →
       sockets (foldl sweep_one (st, acts) l).1 !! w
       = Some (if ws_isAlive s then with_isAlive false s else closing s))
  ∧ wss_clients (foldl sweep_one (st, acts) l).1 = wss_clients st
  ∧ same_shared st (foldl sweep_one (st, acts) l).1.
Proof.
  induction l as [|w l IH]; intros st acts Hnd.
  { simpl. rewrite app_nil_r. split_and!; try done. intros w s Hin. by apply not_elem_of_nil in Hin. }
  apply NoDup_cons in Hnd as [Hw Hnd]. cbn [foldl].
  set (st1 := (sweep_one (st, acts) w).1).
  assert (sweep_one (st, acts) w = (st1, acts ++ [probe st w])) as E1.
  { subst st1. unfold sweep_one, probe. by repeat case_match. }
  assert (∀ w', w' ≠ w → sockets st1 !! w' = sockets st !! w') as Hother.
  { intros w' Hne. subst st1. unfold sweep_one. repeat case_match; simpl; try done;
      by rewrite lookup_alter_ne. }
  assert (∀ s, sockets st !! w = Some s →
               sockets st1 !! w = Some (if ws_isAlive s then with_isAlive false s else closing s))
    as Hself.
  { intros s Hs. subst st1. unfold sweep_one. rewrite Hs.
    destruct (ws_isAlive s); simpl; by rewrite lookup_alter_eq, Hs. }
  assert (wss_clients st1 = wss_clients st ∧ same_shared st st1) as [Hwss Hsh].
  { subst st1. unfold sweep_one, same_shared. by repeat case_match. }
  rewrite E1. destruct (IH st1 (acts ++ [probe st w]) Hnd) as (Ha & Hout & Hin & Hw' & Hs').
  split_and!.
  - rewrite Ha, <- app_assoc. f_equal. simpl. f_equal.
    apply list_fmap_ext. intros i w' Hw''. unfold probe. rewrite Hother; [done|].
    intros ->. apply Hw. by eapply list_elem_of_lookup_2.
  - intros w' Hnin. apply not_elem_of_cons in Hnin as [Hne Hnin].
    by rewrite Hout, Hother.
  - intros w' s [->|Hin']%elem_of_cons Hs.
    + by rewrite Hout, (Hself s Hs).
    + apply Hin; [done|]. rewrite Hother; [done|]. by intros ->.
  - by rewrite Hw'.
  - unfold same_shared in *. destruct Hsh as (?&?&?&?&?), Hs' as (?&?&?&?&?).
    split_and!; congruence.
Qed.

Lemma probe_target st w w' :
  probe st w' = Ping w ∨ probe st w' = Terminate w → w' = w.
Proof. unfold probe. repeat case_match; intros [H'|H']; congruence. Qed.

Lemma on_interval_spec st :
  NoDup (wss_clients st) →
  (on_interval st).2 = probe st <$> wss_clients st
  ∧ (∀ w s, w ∈ wss_clients st → sockets st !! w = Some s →
       sockets (on_interval st).1 !! w
       = Some (if ws_isAlive s then with_isAlive false s else closing s))
  ∧ wss_clients (on_interval st).1 = wss_clients st
  ∧ same_shared st (on_interval st).1.
Proof.
  intros Hnd. unfold on_interval.
  destruct (sweep_spec (wss_clients st) st [] Hnd) as (Ha & _ & Hin & Hw & Hsh).
  split_and!; done.
Qed.

(** X11. The liveness sweep. Every socket the server tracks gets one probe per
    sweep: a ping if it answered the previous one (and its flag is
    cleared), a [terminate] otherwise; the sweep sends no message and
    leaves the process-wide maps alone. So a socket that is alive is pinged
    by the next sweep and terminated by the one after it if no pong came in
    between, and pinged again if one did. *)
Theorem X11_liveness_sweep (st : state) (ws : nat) (s : socket)
    (Hnd : NoDup (wss_clients st))
    (Hin : ws ∈ wss_clients st)
    (Hs : sockets st !! ws = Some s)
    (Halive : ws_isAlive s = true) :
  let r1 := on_interval st in
  let silent := on_interval r1.1 in
  let answered := on_interval (heartbeat ws r1.1) in
  r1.2 = probe st <$> wss_clients st
  ∧ same_shared st r1.1
  ∧ Ping ws ∈ r1.2 ∧ (Terminate ws ∉ r1.2)
  ∧ Terminate ws ∈ silent.2 ∧ (Ping ws ∉ silent.2)
  ∧ Ping ws ∈ answered.2 ∧ (Terminate ws ∉ answered.2).
Proof.
  intros r1 silent answered.
  destruct (on_interval_spec st Hnd) as (Ha1 & Hs1 & Hw1 & Hsh1). fold r1 in Ha1, Hs1, Hw1, Hsh1.
  specialize (Hs1 ws s Hin Hs). rewrite Halive in Hs1.
  assert (∀ st0 s0 a, sockets st0 !! ws = Some s0 → ws ∈ wss_clients st0 →
            NoDup (wss_clients st0) → probe st0 ws = a →
            a ∈ (on_interval st0).2) as Hhas.
  { intros st0 s0 a Hs0 Hin0 Hnd0 <-. destruct (on_interval_spec st0 Hnd0) as (-> & _).
    by apply list_elem_of_fmap_2. }
  assert (∀ st0 a, NoDup (wss_clients st0) → probe st0 ws ≠ a →
            (a = Ping ws ∨ a = Terminate ws) → a ∉ (on_interval st0).2) as Hnot.
  { intros st0 a Hnd0 Hne Ha. destruct (on_interval_spec st0 Hnd0) as (-> & _).
    intros (w' & E & _)%list_elem_of_fmap. apply Hne.
    assert (w' = ws) as -> by (apply (probe_target st0); destruct Ha; subst; auto).
    done. }
  assert (probe st ws = Ping ws) as Hp0 by (unfold probe; by rewrite Hs, Halive).
  assert (probe r1.1 ws = Terminate ws) as Hp1 by (unfold probe; by rewrite Hs1).
  assert (sockets (heartbeat ws r1.1) !! ws = Some (with_isAlive true (with_isAlive false s)))
    as Hs2 by (unfold heartbeat; simpl; by rewrite lookup_alter_eq, Hs1).
  assert (probe (heartbeat ws r1.1) ws = Ping ws) as Hp2 by (unfold probe; by rewrite Hs2).
  assert (NoDup (wss_clients r1.1)) as Hnd1 by (by rewrite Hw1).
  assert (ws ∈ wss_clients r1.1) as Hin1 by (by rewrite Hw1).
  split_and!; try done.
  - by apply (Hhas st s).
  - apply Hnot; [done| |auto]. by rewrite Hp0.
  - by apply (Hhas r1.1 _ _ Hs1).
  - apply Hnot; [done| |auto]. by rewrite Hp1.
  - by apply (Hhas (heartbeat ws r1.1) _ _ Hs2).
  - apply Hnot; [done| |auto]. by rewrite Hp2.
Qed.

(** ** Per-address accounting *)

Lemma quiet_refl st : quiet st st.
Proof. done. Qed.

Lemma quiet_trans st1 st2 st3 : quiet st1 st2 → quiet st2 st3 → quiet st1 st3.
Proof. intros [E1 E2] [E3 E4]. split; congruence. Qed.

Lemma quiet_same st st' :
  sockets st' = sockets st → connectionsPerIP st' = connectionsPerIP st → quiet st st'.
Proof. intros E1 E2. unfold quiet. by rewrite E1, E2. Qed.

Lemma quiet_upd_socket w g st :
  (∀ s, standing (g s) = standing s) → quiet st (upd_socket w g st).
Proof.
  intros Hg. split; [|done]. simpl. apply map_eq. intros i.
  rewrite !lookup_fmap. destruct (decide (i = w)) as [->|Hne].
  - rewrite lookup_alter_eq. destruct (sockets st !! w); simpl; [|done]. by rewrite Hg.
  - by rewrite lookup_alter_ne.
Qed.

Lemma quiet_replace w s s' st :
  sockets st !! w = Some s → standing s' = standing s →
  quiet st (set_sockets (<[w := s']>) st).
Proof.
  intros Hs Hst. split; [|done]. simpl. apply map_eq. intros i.
  rewrite !lookup_fmap. destruct (decide (i = w)) as [->|Hne].
  - rewrite lookup_insert_eq, Hs. simpl. by rewrite Hst.
  - by rewrite lookup_insert_ne.
Qed.

Lemma standing_closing s : standing (closing s) = standing s.
Proof. unfold closing, standing. destruct (ws_readyState s) eqn:E; simpl; rewrite ?E; reflexivity. Qed.

Lemma standing_rate_limit now s : standing (rate_limit now s) = standing s.
Proof. unfold rate_limit. by case_match. Qed.

Lemma quiet_join_admit ws data ref st : quiet st (join_admit ws data ref st).1.
Proof.
  unfold join_admit. destruct (sockets st !! ws); [|done]. simpl.
  match goal with |- quiet _ (set_rooms _ ?x) => apply (quiet_trans _ x) end;
    [by apply quiet_upd_socket|by apply quiet_same].
Qed.

Lemma quiet_join_check ws data ref st : quiet st (state_of (join_check ws data ref st)).
Proof. unfold join_check. repeat case_match; try done. apply quiet_join_admit. Qed.

Lemma quiet_join_create ws data h now st :
  quiet st (state_of (join_create ws data h now st)).
Proof.
  unfold join_create. eapply quiet_trans; [|apply quiet_join_check]. by apply quiet_same.
Qed.

Lemma quiet_handleCloakLogic ws data now st :
  quiet st (state_of (handleCloakLogic ws data now st)).
Proof.
  unfold handleCloakLogic, join. repeat case_match; try done;
    auto using quiet_join_create, quiet_join_check.
Qed.

Lemma quiet_resume k salt now st : quiet st (state_of (resume k salt now st)).
Proof.
  destruct k; simpl; [apply quiet_join_create|]. case_match; [done|apply quiet_join_admit].
Qed.

Lemma quiet_handleMessengerLogic ws data f st :
  quiet st (handleMessengerLogic ws data f st).1.
Proof.
  unfold handleMessengerLogic. fold (with_namespace st).
  assert (quiet st (with_namespace st)) as H0
    by (unfold with_namespace; case_match; [done|by apply quiet_same]).
  eapply quiet_trans; [exact H0|].
  destruct (is_str (d_type data) "register").
  - destruct (truthy (d_peerId data)); [|done].
    set (st2 := upd_socket ws _ _).
    assert (quiet (with_namespace st) st2) as H2.
    { subst st2. eapply quiet_trans; [|by apply quiet_upd_socket]. by apply quiet_same. }
    case_match; [|done]. eapply quiet_trans; [exact H2|]. by apply quiet_same.
  - repeat case_match; try done; by apply quiet_same.
Qed.

Lemma quiet_limpiarRecursos ws st : quiet st (limpiarRecursos ws st).1.
Proof.
  apply quiet_same; [apply limpiarRecursos_sockets|apply limpiarRecursos_connectionsPerIP].
Qed.

Lemma quiet_sweep l : ∀ st acts, quiet st (foldl sweep_one (st, acts) l).1.
Proof.
  induction l as [|w l IH]; intros st acts; [done|]. cbn [foldl].
  unfold sweep_one at 2. repeat case_match; (eapply quiet_trans; [|apply IH]).
  - apply quiet_upd_socket, standing_closing.
  - by apply quiet_upd_socket.
  - done.
Qed.

Lemma quiet_on_message ws now f st : quiet st (state_of (on_message ws now f st)).
Proof.
  unfold on_message. destruct (sockets st !! ws) as [s|] eqn:Hs; [|done].
  pose proof (quiet_replace ws s (rate_limit now s) st Hs (standing_rate_limit now s)) as H1.
  repeat case_match; (eapply quiet_trans; [exact H1|]); unfold state_of; simpl; try done.
  - apply quiet_upd_socket, standing_closing.
  - apply quiet_upd_socket, standing_closing.
  - apply quiet_handleCloakLogic.
  - apply quiet_handleMessengerLogic.
Qed.

(** Every event other than a connection and a close is quiet. *)
Lemma quiet_step e st :
  match e with EConnection _ _ _ _ | EClose _ => True
          | _ => quiet st (state_of (step e st)) end.
Proof.
  destruct e; try done; simpl; unfold state_of; simpl.
  - apply quiet_on_message.
  - apply quiet_resume.
  - by apply quiet_upd_socket.
  - apply quiet_sweep.
  - unfold on_timeout. case_match; [by apply quiet_same|done].
Qed.

Lemma accounted_quiet st st' : quiet st st' → accounted st → accounted st'.
Proof. intros [E1 E2] H ip. unfold live_count. rewrite E1, E2. apply H. Qed.

Lemma live_count_admit ip ip' ws s st :
  sockets st !! ws = None → standing s = (ip, false) →
  live_count ip' (set_sockets (<[ws := s]>) st)
  = if decide (ip' = ip) then S (live_count ip' st) else live_count ip' st.
Proof.
  intros Hnew Hst. unfold live_count. simpl. rewrite fmap_insert, Hst.
  assert ((standing <$> sockets st) !! ws = None) as Hn by (by rewrite lookup_fmap, Hnew).
  destruct (decide (ip' = ip)) as [->|Hne].
  - rewrite map_filter_insert_True by done. rewrite map_size_insert_None; [done|].
    apply map_lookup_filter_None. by left.
  - rewrite map_filter_insert_False by (simpl; congruence). by rewrite delete_id.
Qed.

Lemma live_count_close ip ip' ws s st :
  sockets st !! ws = Some s → standing s = (ip, false) →
  live_count ip' (upd_socket ws (with_readyState CLOSED) st)
  = if decide (ip' = ip) then pred (live_count ip' st) else live_count ip' st.
Proof.
  intros Hs Hst. unfold live_count. simpl.
  assert (standing <$> alter (with_readyState CLOSED) ws (sockets st)
          = <[ws := (ip, true)]> (standing <$> sockets st)) as ->.
  { apply map_eq. intros i. rewrite lookup_fmap. destruct (decide (i = ws)) as [->|Hne].
    - rewrite lookup_alter_eq, lookup_insert_eq, Hs. simpl. f_equal.
      injection Hst as <- _. done.
    - by rewrite lookup_alter_ne, lookup_insert_ne, lookup_fmap. }
  assert ((standing <$> sockets st) !! ws = Some (ip, false)) as Hl
    by (by rewrite lookup_fmap, Hs; simpl; rewrite Hst).
  rewrite map_filter_insert_False by (simpl; congruence).
  rewrite map_filter_delete, map_size_delete.
  destruct (decide (ip' = ip)) as [->|Hne].
  - assert (filter (λ kv : nat * (string * bool), kv.2 = (ip, false))
              (standing <$> sockets st) !! ws = Some (ip, false)) as ->; [|done].
    by apply map_lookup_filter_Some.
  - rewrite (proj2 (map_lookup_filter_None _ _ _)); [done|].
    right. intros x Hx. rewrite Hl in Hx. injection Hx as <-. simpl. congruence.
Qed.

Lemma live_count_pos ip ws s st :
  sockets st !! ws = Some s → standing s = (ip, false) → 0 < live_count ip st.
Proof.
  intros Hs Hst. unfold live_count.
  assert (filter (λ kv, kv.2 = (ip, false)) (standing <$> sockets st) !! ws
          = Some (ip, false)) as Hl.
  { apply map_lookup_filter_Some. split; [|done]. by rewrite lookup_fmap, Hs; simpl; rewrite Hst. }
  destruct (size _) eqn:E; [|lia].
  apply map_size_empty_iff in E. rewrite E in Hl. by rewrite lookup_empty in Hl.
Qed.

Lemma accounted_on_connection ws ip id now st :
  sockets st !! ws = None → accounted st → accounted (on_connection ws ip id now st).1.
Proof.
  intros Hnew Hacc. unfold on_connection. simpl.
  destruct (Hacc ip) as [Hc Hle].
  assert (or0_succ (connectionsPerIP st !! ip) = Z.of_nat (live_count ip st) + 1)%Z as Hsucc.
  { rewrite Hc. unfold tally. destruct (live_count ip st); [done|]. simpl. lia. }
  rewrite Hsucc.
  destruct (20 <? Z.of_nat (live_count ip st) + 1)%Z eqn:Efull; simpl.
  { by apply (accounted_quiet st); [apply quiet_same|]. }
  apply Z.ltb_ge in Efull. intros ip'.
  pose proof (live_count_admit ip ip' ws (new_socket ip id now)
                (set_connectionsPerIP
                   (<[ip := JNum (Z.of_nat (live_count ip st) + 1)]>)
                   (set_wss_clients (set_add ws) st)) Hnew eq_refl) as Hlc.
  change (live_count ip' (set_connectionsPerIP _ (set_wss_clients _ st)))
    with (live_count ip' st) in Hlc.
  unfold set_sockets in *. simpl in *. rewrite Hlc.
  destruct (decide (ip' = ip)) as [->|Hne].
  - rewrite lookup_insert_eq. split; [|lia]. unfold tally. do 2 f_equal. lia.
  - rewrite lookup_insert_ne by done. apply Hacc.
Qed.

Lemma accounted_on_close ws st :
  fires_once (EClose ws) st → accounted st → accounted (on_close ws st).1.
Proof.
  intros Honce Hacc. unfold on_close. simpl.
  destruct (sockets st !! ws) as [s|] eqn:Hs.
  2: { by apply (accounted_quiet st); [apply quiet_same|]. }
  apply (accounted_quiet _ _ (quiet_limpiarRecursos ws _)).
  assert (standing s = (ws_ip s, false)) as Hst.
  { unfold standing. f_equal. specialize (Honce s Hs). by destruct (ws_readyState s). }
  pose proof (live_count_pos (ws_ip s) ws s st Hs Hst) as Hpos.
  destruct (Hacc (ws_ip s)) as [Hc Hle].
  assert (connectionsPerIP st !! ws_ip s = Some (JNum (Z.of_nat (live_count (ws_ip s) st))))
    as Hc' by (rewrite Hc; unfold tally; by destruct (live_count (ws_ip s) st); [lia|]).
  rewrite Hc'. simpl.
  assert (∀ ip', live_count ip' (upd_socket ws (with_readyState CLOSED)
                                   (set_wss_clients (set_delete ws) st))
                 = if decide (ip' = ws_ip s) then pred (live_count ip' st)
                   else live_count ip' st) as Hlc.
  { intros ip'. by rewrite <- (live_count_close (ws_ip s) ip' ws s st Hs Hst). }
  intros ip'.
  assert (∀ g, live_count ip' (set_connectionsPerIP g
                 (upd_socket ws (with_readyState CLOSED) (set_wss_clients (set_delete ws) st)))
               = live_count ip' (upd_socket ws (with_readyState CLOSED)
                                   (set_wss_clients (set_delete ws) st))) as Hg by done.
  destruct (Z.of_nat (live_count (ws_ip s) st) - 1 <=? 0)%Z eqn:Ez.
  - apply Z.leb_le in Ez. rewrite Hg, Hlc. simpl.
    destruct (decide (ip' = ws_ip s)) as [->|Hne].
    + rewrite lookup_delete_eq. split; [|lia].
      assert (live_count (ws_ip s) st = 1) as -> by lia. done.
    + rewrite lookup_delete_ne by done. apply Hacc.
  - apply Z.leb_gt in Ez. rewrite Hg, Hlc. simpl.
    destruct (decide (ip' = ws_ip s)) as [->|Hne].
    + rewrite lookup_insert_eq. split; [|lia].
      destruct (live_count (ws_ip s) st) as [|[|n]] eqn:En; [lia|lia|].
      simpl. unfold tally. do 2 f_equal. lia.
    + rewrite lookup_insert_ne by done. apply Hacc.
Qed.

Lemma accounted_step e st :
  fires_once e st → accounted st → accounted (state_of (step e st)).
Proof.
  intros Honce Hacc. pose proof (quiet_step e st) as Hq.
  destruct e; try (by apply (accounted_quiet st)).
  - by apply accounted_on_connection.
  - by apply accounted_on_close.
Qed.

Lemma accounted_run es : ∀ st,
  well_formed es st → accounted st → accounted (run es st).1.
Proof.
  induction es as [|e es IH]; intros st Hwf Hacc; [done|].
  destruct Hwf as [Honce Hwf]. rewrite run_cons_state.
  apply IH; [done|]. by apply accounted_step.
Qed.

Lemma accounted_initial : accounted initial.
Proof.
  intros ip. unfold live_count, initial. simpl.
  rewrite fmap_empty, map_filter_empty, map_size_empty, lookup_empty. split; [done|lia].
Qed.

(** X12. Per-address accounting. After any sequence of events in which
    each socket object connects once and closes at most once, the counter
    of every address is the number of its admitted sockets whose [close]
    has not fired, with no entry when there is none; so no address ever
    has more than 20 such sockets, and no counter is ever [NaN], zero or
    negative. *)
Theorem X12_address_counter_counts_open_sockets es :
  well_formed es initial →
  ∀ ip, let st := (run es initial).1 in
    connectionsPerIP st !! ip = tally (live_count ip st) ∧ live_count ip st ≤ 20.
Proof.
  intros Hwf ip. by apply (accounted_run es initial Hwf accounted_initial).
Qed.

(** ** A connection over time *)

#[local] Instance later_of_preorder : PreOrder later_of.
Proof.
  split; [by intros s|].
  intros s1 s2 s3 (E1 & E2 & E3) (F1 & F2 & F3). split_and!; [congruence..|auto].
Qed.

Lemma later_of_room_blind : room_blind later_of.
Proof. by intros a x s. Qed.
Lemma later_of_peer_blind : peer_blind later_of.
Proof. by intros p s. Qed.
Lemma later_of_window_blind : window_blind later_of.
Proof. intros now s. unfold rate_limit. by case_match. Qed.
Lemma later_of_life_blind : life_blind later_of.
Proof.
  split_and!; [|by intros b s|by intros s].
  intros s. split_and!; [by unfold closing; case_match..|].
  unfold closing, is_open. by destruct (ws_readyState s) eqn:E; simpl; rewrite ?E.
Qed.

Lemma later_of_step ws e st :
  not_connection ws e → keeps later_of ws st (state_of (step e st)).
Proof.
  intros He.
  assert (foreign_to ws e → keeps later_of ws st (state_of (step e st))) as Hf.
  { apply keeps_step; [apply _|apply later_of_room_blind|apply later_of_life_blind]. }
  destruct e as [w ip id now|w now f|k salt now|w|w| |t w]; try (by apply Hf).
  destruct (decide (w = ws)) as [->|Hne]; [|by apply Hf].
  intros s Hs.
  destruct (on_message_sender later_of ws now f st s Hs later_of_room_blind
              later_of_life_blind (or_introl later_of_peer_blind)) as (s' & Hs' & Hk).
  exists s'. split; [done|]. etransitivity; [apply later_of_window_blind|exact Hk].
Qed.

Lemma later_of_run ws es : ∀ st,
  Forall (not_connection ws) es → keeps later_of ws st (run es st).1.
Proof.
  induction es as [|e es IH]; intros st Hall; [apply keeps_refl; apply _|].
  apply Forall_cons in Hall as [He Hall]. rewrite run_cons_state.
  eapply keeps_trans; [apply _|by apply later_of_step|by apply IH].
Qed.

(** X13. Whatever happens afterwards (messages of its own or of others,
    closes, sweeps, timers), short of a new connection object taking its
    place, an admitted connection keeps its record, its id and its
    address, and once it is no longer open it never is again. *)
Theorem X13_connection_identity_is_stable ws es st s :
  sockets st !! ws = Some s → Forall (not_connection ws) es →
  ∃ s', sockets (run es st).1 !! ws = Some s'
        ∧ ws_id s' = ws_id s ∧ ws_ip s' = ws_ip s
        ∧ (is_open s = false → is_open s' = false).
Proof. intros Hs Hall. by apply (later_of_run ws es st Hall s Hs). Qed.
(** ** The two applications *)

Lemma same_directory_join_admit ws data ref st :
  same_directory st (join_admit ws data ref st).1.
Proof. unfold join_admit. by case_match. Qed.

Lemma same_directory_join_check ws data ref st :
  same_directory st (state_of (join_check ws data ref st)).
Proof.
  unfold join_check. repeat case_match; try done. apply same_directory_join_admit.
Qed.

Lemma same_directory_join_create ws data h now st :
  same_directory st (state_of (join_create ws data h now st)).
Proof.
  unfold join_create.
  destruct (same_directory_join_check ws data (fresh (dom (rooms st)))
              (set_cloakRooms (<[str (d_room data) := fresh (dom (rooms st))]>)
                 (set_rooms (<[fresh (dom (rooms st)) := Room [] h now]>) st)))
    as [E1 E2].
  split; [by rewrite E1|by rewrite E2].
Qed.

Lemma same_directory_handleCloakLogic ws data now st :
  same_directory st (state_of (handleCloakLogic ws data now st)).
Proof.
  unfold handleCloakLogic, join.
  repeat case_match; try done;
    auto using same_directory_join_create, same_directory_join_check.
Qed.

Lemma same_directory_resume k salt now st :
  same_directory st (state_of (resume k salt now st)).
Proof.
  destruct k; simpl; [apply same_directory_join_create|].
  case_match; [done|apply same_directory_join_admit].
Qed.

Lemma same_rooms_handleMessengerLogic ws data f st :
  same_rooms st (handleMessengerLogic ws data f st).1.
Proof. unfold handleMessengerLogic. by repeat case_match. Qed.

Lemma room_traffic_step e st :
  room_traffic e → same_directory st (state_of (step e st)).
Proof.
  destruct e as [w ip id now|w now f|k salt now|w|w| |t w]; try done; intros He.
  - simpl in *. unfold on_message.
    destruct (sockets st !! w) as [s|]; [|done].
    set (st1 := set_sockets _ st).
    assert (same_directory st st1) as H1 by done.
    repeat case_match; try done.
    + destruct (same_directory_handleCloakLogic w p now st1) as [E1 E2].
      split; [by rewrite E1|by rewrite E2].
    + exfalso. apply (He p); [done|].
      unfold is_str in *. by case_bool_decide.
  - apply same_directory_resume.
Qed.

Lemma directory_traffic_step e st :
  directory_traffic e → same_rooms st (state_of (step e st)).
Proof.
  destruct e as [w ip id now|w now f|k salt now|w|w| |t w]; try done; intros He.
  - simpl in *. unfold on_message.
    destruct (sockets st !! w) as [s|]; [|done].
    set (st1 := set_sockets _ st).
    repeat case_match; try done.
    + exfalso. destruct (He p) as [Ha Hb]; [done|].
      unfold is_str in *. repeat case_bool_decide; done.
    + destruct (same_rooms_handleMessengerLogic w p f st1) as [E1 E2].
      unfold same_rooms, state_of. cbn [fst]. by rewrite E1, E2.
  - simpl. unfold on_timeout, state_of. simpl. by case_match.
Qed.

(** X14. The two applications do not interfere. No amount of room traffic
    (frames that are not for the directory, and the settling of joins)
    changes the directory or the pending matches, and no amount of
    directory traffic (frames that are not for the room relay, and expiry
    timers) changes the room table or any room object. *)
Theorem X14_applications_do_not_interfere es st :
  (Forall room_traffic es → same_directory st (run es st).1)
  ∧ (Forall directory_traffic es → same_rooms st (run es st).1).
Proof.
  revert st. induction es as [|e es IH]; intros st; [done|].
  rewrite run_cons_state. destruct (IH (state_of (step e st))) as [IH1 IH2].
  split; intros [He Hes]%Forall_cons.
  - destruct (room_traffic_step e st He) as [E1 E2], (IH1 Hes) as [F1 F2].
    split; congruence.
  - destruct (directory_traffic_step e st He) as [E1 E2], (IH2 Hes) as [F1 F2].
    split; congruence.
Qed.

End Properties.

(** * Executions on concrete traces *)

Lemma ref_compare_hash salt p : ref_compare p (ref_hash salt p) = true.
Proof.
  unfold ref_compare, ref_hash. generalize ("$" +:+ p +:+ "$")%string. intros s.
  induction s as [|a s IH]; simpl; [by destruct salt|].
  rewrite IH. by destruct (Ascii.ascii_dec a a).
Qed.

Lemma ref_hash_nonempty salt p : ref_hash salt p ≠ "".
Proof. unfold ref_hash. discriminate. Qed.

(** C1. One connection joins room A and then room B (neither has a
    password): it is now in the member sets of both rooms, while its [room]
    field names B only; when it closes, only B is cleaned up and the closed
    socket stays in A's member set, so A is never deleted. *)
Theorem C1_join_of_second_room_keeps_first_membership :
  let st2 := (run (crypto := ref_bcrypt)
                [EConnection 1 "10.0.0.1" "a1b2c3d4" 0;
                 EMessage 1 10 (text (msg_join "A" None None));
                 EMessage 1 20 (text (msg_join "B" None None))] initial).1 in
  let st3 := (run (crypto := ref_bcrypt) [EClose 1] st2).1 in
  room_members st2 "A" = Some [1]
  ∧ room_members st2 "B" = Some [1]
  ∧ ws_room <$> sockets st2 !! 1 = Some (Some "B")
  ∧ room_members st3 "A" = Some [1]
  ∧ room_members st3 "B" = None
  ∧ ws_readyState <$> sockets st3 !! 1 = Some CLOSED.
Proof. vm_compute. done. Qed.

(** C2. Connection 1 registers peer id P, connection 2 registers P after
    it and owns the entry; when connection 1 closes, the entry of P is
    deleted although its owner, connection 2, is still open and still
    tagged with P. *)
Theorem C2_close_deletes_entry_of_later_owner :
  let st2 := (run (crypto := ref_bcrypt)
                [EConnection 1 "10.0.0.1" "a1b2c3d4" 0;
                 EConnection 2 "10.0.0.2" "e5f6a7b8" 0;
                 EMessage 1 10 (text (msg_register "P"));
                 EMessage 2 20 (text (msg_register "P"))] initial).1 in
  let st3 := (run (crypto := ref_bcrypt) [EClose 1] st2).1 in
  directory st2 !! "P" = Some 2
  ∧ directory st3 !! "P" = None
  ∧ ws_peerId <$> sockets st3 !! 2 = Some (Some "P")
  ∧ ws_readyState <$> sockets st3 !! 2 = Some OPEN.
Proof. vm_compute. done. Qed.

(** A connection that never registered sends [find_peer(X)] and closes:
    the pending match for X still points at the closed socket. *)
Lemma C3_witness :
  let st1 := (run (crypto := ref_bcrypt)
                [EConnection 1 "10.0.0.1" "a1b2c3d4" 0;
                 EMessage 1 10 (text (msg_find_peer "X"))] initial).1 in
  let st2 := (on_close 1 st1).1 in
  ws_peerId <$> sockets st1 !! 1 = Some None
  ∧ pendingMatches st1 !! "X" = Some 1
  ∧ ws_readyState <$> sockets st2 !! 1 = Some CLOSED
  ∧ pendingMatches st2 !! "X" = Some 1.
Proof.
  intros st1 st2.
  assert (sockets st1 !! 1
          = Some (Socket "10.0.0.1" "a1b2c3d4" true 1 0 None None None OPEN))
    as Hs by (by vm_compute).
  assert (pendingMatches st1 !! "X" = Some 1) as Hp by (by vm_compute).
  pose proof (C3_close_keeps_pending_match_of_unregistered st1 1 _ "X" Hs Hp) as H.
  cbv zeta in H. destruct H as (Hclosed & Hkept & _).
  destruct (Hkept eq_refl) as [_ Hstill].
  split; [by vm_compute|]. exact (conj Hp (conj Hclosed Hstill)).
Defined.

(** Counterexample to C4 as stated: the twenty-first connection of an
    address is terminated, the counter stays at 20 instead of keeping the
    attempt's increment, and the close of the rejected socket does not
    decrement it. *)
Lemma C4_counterexample_rejected_attempt :
  let r := on_connection 21 "10.0.0.1" "deadbeef" 5 twenty_open in
  connectionsPerIP twenty_open !! "10.0.0.1" = Some (JNum 20)
  ∧ r.2 = [Terminate 21]
  ∧ connectionsPerIP r.1 !! "10.0.0.1" = Some (JNum 20)
  ∧ connectionsPerIP (on_close 21 r.1).1 !! "10.0.0.1" = Some (JNum 20).
Proof. vm_compute. done. Qed.

Lemma C4_witness :
  let r := on_connection 21 "10.0.0.1" "deadbeef" 5 twenty_open in
  r.2 = [Terminate 21]
  ∧ connectionsPerIP r.1 = connectionsPerIP twenty_open
  ∧ connectionsPerIP (on_close 21 r.1).1 = connectionsPerIP twenty_open.
Proof.
  destruct (C4_rejected_connection_not_counted twenty_open 21 "10.0.0.1" "deadbeef"
              5 20) as (H1 & H2 & _ & _ & H5 & _); [by vm_compute|lia|by vm_compute|].
  exact (conj H1 (conj H2 H5)).
Defined.

(** Counterexample to C7 as stated: a connection opened at time 0 sends
    25 messages at time 1000 and 26 at time 1001, that is 51 messages
    within one millisecond; the window resets in between and the relay does
    nothing at all, in particular it does not close the connection. *)
Lemma C7_counterexample_straddling_burst :
  let burst := replicate 25 (EMessage 1 1000 noise) ++ replicate 26 (EMessage 1 1001 noise) in
  length burst = 51
  ∧ (run (crypto := ref_bcrypt)
       (EConnection 1 "10.0.0.1" "a1b2c3d4" 0 :: burst) initial).2 = [].
Proof. vm_compute. done. Qed.

Lemma C7_witness :
  let st := (on_connection 1 "10.0.0.1" "a1b2c3d4" 0 initial).1 in
  Close 1 1011 ∈ (run (crypto := ref_bcrypt) (replicate 51 (EMessage 1 500 noise)) st).2.
Proof.
  intros st.
  destruct (C7_rate_limit_window (crypto := ref_bcrypt) st 1
              (new_socket "10.0.0.1" "a1b2c3d4" 0)
              (replicate 51 (EMessage 1 500 noise))) as (_ & _ & H & _).
  - by vm_compute.
  - apply Forall_replicate. simpl. intros _. lia.
  - destruct H as [_ H]; [reflexivity|]. apply H. vm_compute. discriminate.
Defined.

Lemma C5_witness :
  let st := (run (crypto := ref_bcrypt) lobby_traffic lobby_created).1 in
  room_members st "lobby" = Some [1]
  ∧ handleCloakLogic 2 (msg_join "lobby" None (Some "bob")) 30 st
    = (st, [Send 2 (MError "Password required")], None).
Proof.
  intros st. split; [by vm_compute|].
  edestruct (C5_password_gate (crypto := ref_bcrypt) lobby_created lobby_traffic
               "lobby" 0 (Room [] (Some (ref_hash "NaCl" "hunter2")) 11) "hunter2" "NaCl"
               ref_compare_hash ref_hash_nonempty) as [H _].
  - discriminate.
  - discriminate.
  - by vm_compute.
  - by vm_compute.
  - by vm_compute.
  - edestruct (H 2 (msg_join "lobby" None (Some "bob")) 30%Z) as (H1 & _);
      [reflexivity|reflexivity|by vm_compute|].
    by apply H1.
Defined.

Lemma C6_witness :
  ∃ res, joins three_joins three_open !! 2 = Some res
         ∧ actions_of res
           = [Send 3 (MJoined "lobby" "0badcafe"
                        [("a1b2c3d4", Some "alice"); ("e5f6a7b8", Some "Cloaker")]);
              Send 1 (MPeerJoined "0badcafe" "carol");
              Send 2 (MPeerJoined "0badcafe" "carol")]
         ∧ joined_reply "lobby" 3 [1; 2] res.
Proof.
  eexists. split; [by vm_compute|]. split; [by vm_compute|].
  eapply (C6_joined_lists_earlier_members three_open "lobby" three_joins) with (k := 2).
  - discriminate.
  - by vm_compute.
  - repeat constructor; vm_compute; eauto.
  - intros j [= <-]. reflexivity.
  - reflexivity.
  - by vm_compute.
Defined.

(** Counterexample to C8 as stated: connections 1 and 2 both send
    [find_peer(X)], then connection 3 registers X. Connection 1 is open and
    nothing has expired, yet it is sent nothing: the later request replaced
    its pending match. *)
Lemma C8_counterexample_superseded_request :
  let r := run (crypto := ref_bcrypt)
             [EConnection 1 "10.0.0.1" "a1b2c3d4" 0;
              EConnection 2 "10.0.0.2" "e5f6a7b8" 0;
              EConnection 3 "10.0.0.3" "0badcafe" 0;
              EMessage 1 10 (text (msg_find_peer "X"));
              EMessage 2 20 (text (msg_find_peer "X"));
              EMessage 3 30 (text (msg_register "X"))] initial in
  r.2 = [SetTimeout "X" 1 300000; SetTimeout "X" 2 300000;
         Send 3 (MRegistered "X"); Send 2 (MPeerFound (Some "X"));
         Send 3 (MPeerFound None)]
  ∧ ws_readyState <$> sockets r.1 !! 1 = Some OPEN
  ∧ pendingMatches r.1 !! "X" = None.
Proof. vm_compute. done. Qed.

Lemma C8_witness :
  let st1 := (handleMessengerLogic 1 (msg_find_peer "X") (text (msg_find_peer "X"))
                three_open).1 in
  ∃ pid, (handleMessengerLogic 2 (msg_register "X") (text (msg_register "X")) st1).2
         = [Send 2 (MRegistered "X"); Send 1 (MPeerFound (Some "X"));
            Send 2 (MPeerFound pid)].
Proof.
  intros st1.
  edestruct (C8_find_peer_then_register (crypto := ref_bcrypt) three_open 1 2 3 "X"
               (msg_find_peer "X") (msg_register "X")
               (text (msg_find_peer "X")) (text (msg_register "X"))
               (text (msg_register "X")) [])
    as (_ & _ & H); try reflexivity.
  - discriminate.
  - edestruct H as (Hpid & _); [by vm_compute|by vm_compute|by vm_compute|].
    exact Hpid.
Defined.


Lemma C10_witness :
  let st := (run (crypto := ref_bcrypt)
               [EConnection 1 "10.0.0.1" "a1b2c3d4" 0;
                EConnection 2 "10.0.0.2" "e5f6a7b8" 0;
                EMessage 1 10 (text (msg_join "A" None None));
                EMessage 2 20 (text (msg_join "A" None None))] initial).1 in
  let res := settle (crypto := ref_bcrypt) "" 30
               (handleCloakLogic 1 (msg_join "A" None (Some "again")) 30 st) in
  room_members st "A" = Some [1; 2]
  ∧ rooms (state_of res) = rooms st.
Proof.
  intros st res. split; [by vm_compute|].
  destruct (C10_rejoin_leaves_member_set (crypto := ref_bcrypt) st 1
              (Socket "10.0.0.1" "a1b2c3d4" true 1 0 (Some "A") (Some "Cloaker") None OPEN)
              (msg_join "A" None (Some "again")) "A" 0 (Room [1; 2] None 10) "" 30)
    as (_ & H & _).
  - reflexivity.
  - reflexivity.
  - discriminate.
  - by vm_compute.
  - by vm_compute.
  - by vm_compute.
  - vm_compute. apply list_elem_of_here.
  - vm_compute. discriminate.
  - exact H.
Defined.

(** * Executions of the further properties *)

Lemma X1_witness :
  handleCloakLogic 1 (msg_signal (Some "0badcafe")) 40 lobby_of_three
  = (lobby_of_three, [Send 3 (MSignal (msg_signal (Some "0badcafe")) "a1b2c3d4")], None).
Proof.
  assert (sockets lobby_of_three !! 1 = Some (member "10.0.0.1" "a1b2c3d4" "alice"))
    as Hs by (by vm_compute).
  destruct (X1_signal_relay lobby_of_three 1 _ (msg_signal (Some "0badcafe")) 40
              eq_refl Hs) as (H & _).
  pose proof (H "lobby" 0 (Room [1; 2; 3] None 10)) as H1. cbv zeta in H1.
  destruct H1 as (E & _); [reflexivity|discriminate|by vm_compute|by vm_compute|].
  etransitivity; [exact E|by vm_compute].
Defined.

Lemma X2_witness :
  actions_of (handleCloakLogic 3 (msg_join "lobby" None (Some "carol")) 30 lobby_of_two)
  = [Send 3 (MJoined "lobby" "0badcafe"
               [("a1b2c3d4", Some "alice"); ("e5f6a7b8", Some "Cloaker")]);
     Send 1 (MPeerJoined "0badcafe" "carol");
     Send 2 (MPeerJoined "0badcafe" "carol")].
Proof.
  assert (sockets lobby_of_two !! 3 = Some (idle "10.0.0.3" "0badcafe"))
    as Hs by (by vm_compute).
  assert (cloakRooms lobby_of_two !! "lobby" = Some 0) as Href by (by vm_compute).
  assert (rooms lobby_of_two !! 0 = Some (Room [1; 2] None 10)) as Hrm by (by vm_compute).
  pose proof (X2_join_notifies_members lobby_of_two 3 _
                (msg_join "lobby" None (Some "carol")) 30 "lobby" 0 _
                eq_refl eq_refl ltac:(discriminate) Hs Href Hrm eq_refl) as H.
  cbv zeta in H. destruct H as (_ & _ & _ & E).
  etransitivity; [exact E|by vm_compute].
Defined.

Lemma X3_witness :
  (on_close 2 lobby_of_three).2
  = [Send 1 (MPeerLeft "e5f6a7b8"); Send 3 (MPeerLeft "e5f6a7b8")]
  ∧ room_members (on_close 2 lobby_of_three).1 "lobby"
    = Some [1; 3].
Proof.
  assert (sockets lobby_of_three !! 2 = Some (member "10.0.0.2" "e5f6a7b8" "Cloaker"))
    as Hs by (by vm_compute).
  assert (cloakRooms lobby_of_three !! "lobby" = Some 0) as Href by (by vm_compute).
  assert (rooms lobby_of_three !! 0 = Some (Room [1; 2; 3] None 10)) as Hrm
    by (by vm_compute).
  pose proof (X3_close_notifies_members lobby_of_three 2 _ "lobby" 0 _
                Hs eq_refl ltac:(discriminate) Href Hrm) as H.
  cbv zeta in H. destruct H as (E & _).
  split; [|by vm_compute]. etransitivity; [exact E|by vm_compute].
Defined.

Lemma X4_witness :
  room_members lobby_of_one "lobby" = Some [1]
  ∧ cloakRooms (on_close 1 lobby_of_one).1 !! "lobby" = None.
Proof.
  assert (sockets lobby_of_one !! 1 = Some (member "10.0.0.1" "a1b2c3d4" "alice"))
    as Hs by (by vm_compute).
  assert (sockets lobby_of_one !! 2 = Some (idle "10.0.0.2" "e5f6a7b8"))
    as Hw by (by vm_compute).
  assert (cloakRooms lobby_of_one !! "lobby" = Some 0) as Href by (by vm_compute).
  assert (rooms lobby_of_one !! 0 = Some (Room [1] None 10)) as Hrm by (by vm_compute).
  pose proof (X4_last_member_frees_room_id (crypto := ref_bcrypt) lobby_of_one 1 2 _ _
                "lobby" 0 _ (msg_join "lobby" (Some "hunter2") None) 50
                Hs eq_refl ltac:(discriminate) Href Hrm eq_refl Hw ltac:(lia)
                eq_refl eq_refl) as H.
  cbv zeta in H. destruct H as (E & _).
  split; [by vm_compute|exact E].
Defined.

Lemma X5_witness :
  (handleMessengerLogic 1 (msg_offer "bob") (text (msg_offer "bob")) bob_registered).2
  = [Send 2 (MForward (msg_offer "bob") None)].
Proof.
  destruct (X5_forward_to_registered_peer bob_registered 1 (msg_offer "bob")
              (msg_offer "bob") (text (msg_offer "bob")) "bob"
              (or_introl eq_refl) eq_refl ltac:(discriminate) eq_refl) as (_ & H & _).
  apply (H 2 (Socket "10.0.0.2" "e5f6a7b8" true 0 0 None None (Some "bob") OPEN)
           (idle "10.0.0.1" "a1b2c3d4")); by vm_compute.
Defined.

Lemma X6_witness :
  let st2 := (on_close 2 bob_registered).1 in
  (handleMessengerLogic 1 (msg_find_peer "bob") (text (msg_find_peer "bob"))
     bob_registered).2 = [Send 1 (MPeerFound (Some "bob"))]
  ∧ (handleMessengerLogic 1 (msg_find_peer "bob") (text (msg_find_peer "bob")) st2).2
    = [SetTimeout "bob" 1 300000].
Proof.
  assert (sockets three_open !! 2 = Some (idle "10.0.0.2" "e5f6a7b8"))
    as Ht by (by vm_compute).
  assert (sockets three_open !! 1 = Some (idle "10.0.0.1" "a1b2c3d4"))
    as Hw by (by vm_compute).
  pose proof (X6_register_then_lookup three_open 2 1 _ _ (msg_register "bob")
                (msg_offer "bob") (msg_find_peer "bob") (msg_offer "bob")
                (text (msg_register "bob")) (text (msg_offer "bob"))
                (text (msg_find_peer "bob")) "bob"
                eq_refl eq_refl ltac:(discriminate) Ht eq_refl Hw ltac:(lia)
                (or_introl eq_refl) eq_refl eq_refl eq_refl eq_refl) as H.
  cbv zeta in H. destruct H as (_ & H2 & _ & _ & H5 & _).
  intros st2. split; [exact H2|exact H5].
Defined.

Lemma X7_witness :
  pendingMatches asked_for_X !! "X" = Some 1
  ∧ pendingMatches (on_timeout "X" 1 asked_for_X) = delete "X" (pendingMatches asked_for_X)
  ∧ (handleMessengerLogic 2 (msg_register "X") (text (msg_register "X"))
       (on_timeout "X" 1 asked_for_X)).2 = [Send 2 (MRegistered "X")].
Proof.
  assert (pendingMatches asked_for_X !! "X" = Some 1) as Hp by (by vm_compute).
  destruct (X7_expiry_of_pending_match asked_for_X "X" 1 2 (msg_register "X")
              (text (msg_register "X")) eq_refl eq_refl ltac:(discriminate))
    as (H & _).
  exact (conj Hp (H Hp)).
Defined.

Lemma X8_witness :
  (handleMessengerLogic 2 (msg_register "X") (text (msg_register "X")) asker_gone).2
  = [Send 2 (MRegistered "X")]
  ∧ pendingMatches
      (handleMessengerLogic 2 (msg_register "X") (text (msg_register "X")) asker_gone).1
    !! "X" = None
  ∧ directory
      (handleMessengerLogic 2 (msg_register "X") (text (msg_register "X")) asker_gone).1
    !! "X" = Some 2.
Proof.
  apply (X8_register_with_departed_requester asker_gone "X" 1 2
           (Socket "10.0.0.1" "a1b2c3d4" true 1 0 None None None CLOSED)
           (msg_register "X") (text (msg_register "X")));
    [reflexivity|reflexivity|discriminate|by vm_compute|by vm_compute|reflexivity].
Defined.

Lemma X9_witness :
  let st1 := (run (crypto := ref_bcrypt)
                [EMessage 2 10 (text (msg_register "bob"));
                 EMessage 2 20 (text (msg_register "robert"))] three_open).1 in
  let st2 := (on_close 2 st1).1 in
  directory st2 !! "robert" = None ∧ directory st2 !! "bob" = Some 2
  ∧ ws_readyState <$> sockets st2 !! 2 = Some CLOSED.
Proof.
  assert (sockets three_open !! 2 = Some (idle "10.0.0.2" "e5f6a7b8"))
    as Ht by (by vm_compute).
  assert (sockets three_open !! 1 = Some (idle "10.0.0.1" "a1b2c3d4"))
    as Hw by (by vm_compute).
  pose proof (X9_reregistration_leaves_old_entry three_open 2 1 _ _
                (msg_register "bob") (msg_register "robert") (msg_find_peer "bob")
                (msg_offer "bob") (msg_offer "bob")
                (text (msg_register "bob")) (text (msg_register "robert"))
                (text (msg_offer "bob")) (text (msg_find_peer "bob")) "bob" "robert"
                eq_refl eq_refl eq_refl eq_refl ltac:(discriminate) ltac:(discriminate)
                ltac:(discriminate) Ht Hw ltac:(lia) eq_refl eq_refl
                (or_introl eq_refl) eq_refl eq_refl) as H.
  cbv zeta in H. destruct H as (_ & _ & H3 & H4 & _).
  intros st1 st2. split; [|split; [|by vm_compute]].
  - etransitivity; [|exact H3]. by vm_compute.
  - etransitivity; [|exact H4]. by vm_compute.
Defined.

Lemma X10_witness :
  actions_of (on_message 1 5 (Frame 70000 None) three_open)
  = [Close 1 1009].
Proof.
  assert (sockets three_open !! 1 = Some (idle "10.0.0.1" "a1b2c3d4"))
    as Hs by (by vm_compute).
  pose proof (X10_frame_gate three_open 1 _ 5 (Frame 70000 None) Hs)
    as H.
  cbv zeta in H. destruct H as (_ & H & _).
  rewrite H; [reflexivity|reflexivity|by vm_compute].
Defined.

Lemma X11_witness :
  (on_interval three_open).2 = [Ping 1; Ping 2; Ping 3]
  ∧ Terminate 2 ∈ (on_interval (on_interval three_open).1).2
  ∧ Ping 2 ∈ (on_interval (heartbeat 2 (on_interval three_open).1)).2.
Proof.
  assert (sockets three_open !! 2 = Some (idle "10.0.0.2" "e5f6a7b8"))
    as Hs by (by vm_compute).
  assert (NoDup (wss_clients three_open)) as Hnd.
  { apply (bool_decide_unpack _). by vm_compute. }
  assert (2 ∈ wss_clients three_open) as Hin.
  { apply (bool_decide_unpack _). by vm_compute. }
  pose proof (X11_liveness_sweep three_open 2 _ Hnd Hin Hs eq_refl) as H.
  cbv zeta in H. destruct H as (_ & _ & _ & _ & H5 & _ & H7 & _).
  split; [by vm_compute|]. exact (conj H5 H7).
Defined.

Lemma X12_witness :
  let st := (run (crypto := ref_bcrypt) churn initial).1 in
  well_formed (crypto := ref_bcrypt) churn initial
  ∧ connectionsPerIP st !! "10.0.0.1" = tally (live_count "10.0.0.1" st)
  ∧ live_count "10.0.0.1" st ≤ 20.
Proof.
  assert (well_formed (crypto := ref_bcrypt) churn initial) as Hwf.
  { vm_compute. repeat split; intros s [= <-]; discriminate. }
  exact (conj Hwf (X12_address_counter_counts_open_sockets (crypto := ref_bcrypt)
                     churn Hwf "10.0.0.1")).
Defined.

Lemma X13_witness :
  ∃ s', sockets (run (crypto := ref_bcrypt) life_of_one three_open).1 !! 1 = Some s'
        ∧ ws_id s' = "a1b2c3d4" ∧ ws_ip s' = "10.0.0.1"
        ∧ (is_open (idle "10.0.0.1" "a1b2c3d4") = false → is_open s' = false).
Proof.
  assert (sockets three_open !! 1 = Some (idle "10.0.0.1" "a1b2c3d4"))
    as Hs by (by vm_compute).
  apply (X13_connection_identity_is_stable (crypto := ref_bcrypt) 1 life_of_one
           three_open _ Hs).
  repeat constructor; discriminate.
Defined.

Lemma X14_witness :
  room_members (run (crypto := ref_bcrypt) room_chatter asked_for_X).1 "lobby" = Some [2]
  ∧ same_directory asked_for_X (run (crypto := ref_bcrypt) room_chatter asked_for_X).1.
Proof.
  split; [by vm_compute|].
  apply (X14_applications_do_not_interfere (crypto := ref_bcrypt) room_chatter asked_for_X).
  repeat constructor; intros data [= <-]; discriminate.
Defined.
